(** * ESTOQUE: the merge import of [mapeamento_app.py]

    A shallow embedding of the stock-control application: the column-name
    normaliser, the schema evolver [ensure_table_and_columns], the merge
    import [import_excel_inteligente], the update primitive
    [update_single_record] and the manual registration and edit forms,
    over a model of the single SQLite table [mercadorias] behind the
    process-wide connection [conn].

    Modelling conventions.
    - A Python [str] is the list of its Unicode code points ([list N]).
    - Python values that reach the code are [None], the float [nan], a
      [str] or an [int] ([value]); spreadsheet cells holding non-integral
      numbers, dates or booleans are outside the model.
    - A Python [int] is an integer ([Z]); [float(...)] yields the binary64
      number that CPython computes.  SQLite stores a parameter as it is
      bound when its type fits the column and, for an integer, 64 bits
      ([stored_as_bound]); the table of the model keeps every parameter
      as bound, and statements name [stored_as_bound] where they rely on
      it.
    - An exception is a result [Raise e]; effectful code threads the
      [state] (the table seen through [conn], and the messages shown by
      Streamlit) and keeps the state reached when an exception escapes.
    - The table records the Python value bound to each column; SQLite's
      storage-class conversion on read-back is not modelled.  Commits are
      not modelled either: the single connection always sees its own
      writes, committed or not. *)

From Stdlib Require Import ZArith NArith String Ascii DecimalString.
From stdpp Require Import gmap list.

Local Open Scope N_scope.

(** ** Python strings *)

Abbreviation pystr := (list N).

(** An ASCII literal as a Python string. *)
Fixpoint lit (s : string) : pystr :=
  match s with
  | EmptyString => []
  | String a s' => N_of_ascii a :: lit s'
  end.

Inductive exn :=
  | ValueError | TypeError | OverflowError
  | OperationalError | ProgrammingError | IntegrityError.

Inductive res (A : Type) :=
  | Ok (a : A)
  | Raise (e : exn).
Arguments Ok {A} a.
Arguments Raise {A} e.

#[global] Instance exn_eq_dec : EqDecision exn.
Proof. solve_decision. Defined.

Definition between (lo hi c : N) : bool := (lo <=? c) && (c <=? hi).

(** [str.isspace] on one code point (the whitespace set of CPython). *)
Definition isspace (c : N) : bool :=
  between 9 13 c || between 28 32 c || (c =? 133) || (c =? 160)
  || (c =? 5760) || between 8192 8202 c || (c =? 8232) || (c =? 8233)
  || (c =? 8239) || (c =? 8287) || (c =? 12288).

Fixpoint lstrip_with (P : N -> bool) (s : pystr) : pystr :=
  match s with
  | [] => []
  | c :: s' => if P c then lstrip_with P s' else s
  end.

Definition strip_with (P : N -> bool) (s : pystr) : pystr :=
  rev (lstrip_with P (rev (lstrip_with P s))).

(** [s.strip()] *)
Definition strip (s : pystr) : pystr := strip_with isspace s.

(** [s.strip(chars)] *)
Definition strip_chars (chars : pystr) (s : pystr) : pystr :=
  strip_with (fun c => bool_decide (c ∈ chars)) s.

(** [str.lower] per code point.  ASCII and Latin-1 capitals move by 32;
    U+0130 and U+212A are the two other code points whose lowercase
    contains an ASCII letter.  Every remaining code point is kept: Python
    maps it to code points outside [0-9a-z] and outside the alphabet of
    the synonym table, which is all the callers observe. *)
Definition lower_char (c : N) : pystr :=
  if between 65 90 c then [c + 32]
  else if between 192 222 c && negb (c =? 215) then [c + 32]
  else if c =? 304 then [105; 775]
  else if c =? 8490 then [107]
  else [c].

Definition lower (s : pystr) : pystr := flat_map lower_char s.

(** [str.maketrans(x, y)]: the two strings must have equal length. *)
Definition str_maketrans (x y : pystr) : res (list (N * N)) :=
  if decide (length x = length y) then Ok (zip x y) else Raise ValueError.

Fixpoint table_get (tbl : list (N * N)) (c : N) : option N :=
  match tbl with
  | [] => None
  | (k, v) :: tbl' => if k =? c then Some v else table_get tbl' c
  end.

(** [s.translate(table)]; with a repeated key, [maketrans] keeps the last. *)
Definition translate (tbl : list (N * N)) (s : pystr) : pystr :=
  map (fun c => default c (table_get (rev tbl) c)) s.

Definition underscore : N := 95.

(** [re.sub(r"[P]+", "_", s)]: every maximal run of characters satisfying
    [P] becomes one underscore; [in_run] tells that the run has started. *)
Fixpoint re_sub_runs (P : N -> bool) (in_run : bool) (s : pystr) : pystr :=
  match s with
  | [] => []
  | c :: s' =>
      if P c then
        if in_run then re_sub_runs P true s'
        else underscore :: re_sub_runs P true s'
      else c :: re_sub_runs P false s'
  end.

Definition is_digit (c : N) : bool := between 48 57 c.
Definition is_0_9_a_z (c : N) : bool := is_digit c || between 97 122 c.

(** The two literals of line 27, code point by code point. *)
Definition accents_from : pystr :=
  [193; 192; 194; 195; 225; 224; 226; 227; 201; 200; 202; 233; 232; 234;
   205; 204; 206; 237; 236; 238; 211; 210; 212; 213; 243; 242; 244; 245;
   218; 217; 219; 250; 249; 251; 199; 231; 209; 241].

Definition accents_to : pystr :=
  lit "AAAAaaaaEEEEeeeeIIIiiiOOOOooooUUUuuuCcNn".

Definition bind {A B} (m : res A) (k : A -> res B) : res B :=
  match m with
  | Ok a => k a
  | Raise e => Raise e
  end.

(** [normalize_colname], lines 21-37.  The callers pass a [str], for which
    [pd.isna(name)] is false. *)
Definition normalize_colname (name : pystr) : res pystr :=
  let s := strip name in
  bind (str_maketrans accents_from accents_to) (fun accents =>
  let s := translate accents s in
  let s := lower s in
  let s := re_sub_runs (fun c => negb (is_0_9_a_z c)) false s in
  let s := re_sub_runs (fun c => c =? underscore) false s in
  let s := strip_chars [underscore] s in
  Ok (if decide (s = []) then lit "col" else s)).


(** ** Python values *)

Inductive value :=
  | PNone
  | PNaN
  | PStr (s : pystr)
  | PInt (z : Z).

#[global] Instance value_eq_dec : EqDecision value.
Proof. solve_decision. Defined.

(** [str(v)] *)
Definition py_str (v : value) : pystr :=
  match v with
  | PNone => lit "None"
  | PNaN => lit "nan"
  | PStr s => s
  | PInt z => lit (NilZero.string_of_int (Z.to_int z))
  end.

(** *** [float(s)] for a string, as CPython computes it: the characters
    that [isspace] accepts are trimmed (the separators U+001C to U+001F
    apart), then come an optional sign and either [inf], [infinity] or
    [nan] in any case, or digits with an optional fraction and an optional
    exponent.  A digit is a decimal digit of any script; single underscores
    may separate digits.  The decimal is rounded to the nearest binary64
    number, ties to even, and to infinity from 2^1024 - 2^970 on. *)

Inductive pyfloat :=
  | Finite (m : Z) (e : Z)      (* the binary64 number m * 2^e *)
  | Infinite
  | NotANumber.

(** The digit zero of every script (Unicode 14.0, as in CPython 3.11); the
    nine code points after each are its digits one to nine. *)
Definition decimal_zeros : list N :=
  [48; 1632; 1776; 1984; 2406; 2534; 2662; 2790; 2918; 3046; 3174; 3302;
   3430; 3558; 3664; 3792; 3872; 4160; 4240; 6112; 6160; 6470; 6608; 6784;
   6800; 6992; 7088; 7232; 7248; 42528; 43216; 43264; 43472; 43504; 43600;
   44016; 65296; 66720; 68912; 69734; 69872; 69942; 70096; 70384; 70736;
   70864; 71248; 71360; 71472; 71904; 72016; 72784; 73040; 73120; 92768;
   92864; 93008; 120782; 120792; 120802; 120812; 120822; 123200; 123632;
   125264; 130032].

(** [Py_UNICODE_TODECIMAL] *)
Definition decimal_digit (c : N) : option Z :=
  match List.find (fun z => between z (z + 9) c) decimal_zeros with
  | Some z => Some (Z.of_N (c - z))
  | None => None
  end.

(** The rest of a digit part: digits, each optionally preceded by one
    underscore.  Returns the digits read and the unread suffix. *)
Fixpoint digits_rest (s : pystr) : list Z * pystr :=
  match s with
  | c :: s' =>
      match decimal_digit c with
      | Some d => let (ds, r) := digits_rest s' in (d :: ds, r)
      | None =>
          if c =? underscore then
            match s' with
            | c2 :: s'' =>
                match decimal_digit c2 with
                | Some d => let (ds, r) := digits_rest s'' in (d :: ds, r)
                | None => ([], s)
                end
            | [] => ([], s)
            end
          else ([], s)
      end
  | [] => ([], [])
  end.

(** [digitpart]: fails when the first character is not a digit. *)
Definition digitpart (s : pystr) : option (list Z * pystr) :=
  match s with
  | c :: s' =>
      match decimal_digit c with
      | Some d => let (ds, r) := digits_rest s' in Some (d :: ds, r)
      | None => None
      end
  | [] => None
  end.

Definition digits_to_Z (ds : list Z) : Z :=
  fold_left (fun acc d => (10 * acc + d)%Z) ds 0%Z.

Definition read_sign (s : pystr) : Z * pystr :=
  match s with
  | 43 :: s' => (1%Z, s')
  | 45 :: s' => ((-1)%Z, s')
  | _ => (1%Z, s)
  end.

(** [number]: the integer and fraction digits, and the unread suffix. *)
Definition number (s : pystr) : option (list Z * list Z * pystr) :=
  match digitpart s with
  | Some (ip, r) =>
      match r with
      | 46 :: r' =>
          match digitpart r' with
          | Some (fp, r'') => Some (ip, fp, r'')
          | None => Some (ip, [], r')
          end
      | _ => Some (ip, [], r)
      end
  | None =>
      match s with
      | 46 :: r' =>
          match digitpart r' with
          | Some (fp, r'') => Some ([], fp, r'')
          | None => None
          end
      | _ => None
      end
  end.

(** [exponent]: absent (0), or [e]/[E], an optional sign and a digit part. *)
Definition exponent (s : pystr) : option (Z * pystr) :=
  match s with
  | [] => Some (0%Z, [])
  | c :: s' =>
      if (c =? 101) || (c =? 69) then
        let (sg, s'') := read_sign s' in
        match digitpart s'' with
        | Some (ds, r) => Some ((sg * digits_to_Z ds)%Z, r)
        | None => None
        end
      else None
  end.

Definition lower_ascii (s : pystr) : pystr :=
  map (fun c => if between 65 90 c then c + 32 else c) s.

(** [num / den >= 2^k], for positive [num] and [den]. *)
Definition ratio_ge_pow2 (num den k : Z) : bool :=
  if (0 <=? k)%Z then (den * 2 ^ k <=? num)%Z
  else (den <=? num * 2 ^ (- k))%Z.

(** The integer part of the binary logarithm of [num / den]. *)
Definition ratio_log2 (num den : Z) : Z :=
  let k0 := (Z.log2 num - Z.log2 den)%Z in
  if ratio_ge_pow2 num den k0 then k0 else (k0 - 1)%Z.

(** The binary64 number nearest to [num / den] (both positive): 53
    significant bits, exponent not below -1074, ties to even. *)
Definition round_binary64 (num den : Z) : pyfloat :=
  let k := ratio_log2 num den in
  let e := Z.max (k - 52) (-1074) in
  let n' := if (0 <=? e)%Z then num else (num * 2 ^ (- e))%Z in
  let d' := if (0 <=? e)%Z then (den * 2 ^ e)%Z else den in
  let q := (n' / d')%Z in
  let r := (n' mod d')%Z in
  let n := if (d' <? 2 * r)%Z || ((d' =? 2 * r)%Z && Z.odd q)
           then (q + 1)%Z else q in
  if (971 <? e)%Z || ((e =? 971)%Z && (2 ^ 53 <=? n)%Z) then Infinite
  else Finite n e.

(** The float of the decimal [sg * m * 10^e10], with [m >= 0]. *)
Definition float_of_decimal (sg m e10 : Z) : pyfloat :=
  if (m =? 0)%Z then Finite 0 0
  else
    match (if (0 <=? e10)%Z then round_binary64 (m * 10 ^ e10) 1
           else round_binary64 m (10 ^ (- e10))) with
    | Finite n e => Finite (sg * n) e
    | x => x
    end.

Definition float_space (c : N) : bool := isspace c && negb (between 28 31 c).

Definition float_of_str (s : pystr) : res pyfloat :=
  let (sg, body) := read_sign (strip_with float_space s) in
  let word := lower_ascii body in
  if decide (word = lit "inf") then Ok Infinite
  else if decide (word = lit "infinity") then Ok Infinite
  else if decide (word = lit "nan") then Ok NotANumber
  else
    match number body with
    | Some (ip, fp, r) =>
        match exponent r with
        | Some (ex, []) =>
            Ok (float_of_decimal sg (digits_to_Z (ip ++ fp))
                                 (ex - Z.of_nat (length fp)))
        | _ => Raise ValueError
        end
    | None => Raise ValueError
    end.

(** [float(v)]; an [int] too large for a float raises [OverflowError]. *)
Definition py_float (v : value) : res pyfloat :=
  match v with
  | PNone => Raise TypeError
  | PNaN => Ok NotANumber
  | PStr s => float_of_str s
  | PInt z =>
      match float_of_decimal (Z.sgn z) (Z.abs z) 0 with
      | Infinite => Raise OverflowError
      | x => Ok x
      end
  end.

(** [int(x)] for a float [x]: truncation towards zero. *)
Definition py_int (x : pyfloat) : res Z :=
  match x with
  | Finite m e =>
      if (0 <=? e)%Z then Ok (m * 2 ^ e)%Z
      else Ok (Z.quot m (2 ^ (- e)))%Z
  | Infinite => Raise OverflowError
  | NotANumber => Raise ValueError
  end.

(** [int(float(val))] *)
Definition int_float (val : value) : res Z := bind (py_float val) py_int.

(** ** Python dictionaries, in insertion order *)

Abbreviation dict V := (list (pystr * V)).

Fixpoint dict_get {V} (d : dict V) (k : pystr) : option V :=
  match d with
  | [] => None
  | (k', v) :: d' => if decide (k' = k) then Some v else dict_get d' k
  end.

(** [d[k] = v]: an existing key keeps its place. *)
Fixpoint dict_set {V} (d : dict V) (k : pystr) (v : V) : dict V :=
  match d with
  | [] => [(k, v)]
  | (k', v') :: d' =>
      if decide (k' = k) then (k', v) :: d' else (k', v') :: dict_set d' k v
  end.

(** [d.pop(k)] when [k] is in [d]; the identity otherwise. *)
Fixpoint dict_pop {V} (d : dict V) (k : pystr) : dict V :=
  match d with
  | [] => []
  | (k', v) :: d' => if decide (k' = k) then d' else (k', v) :: dict_pop d' k
  end.

Definition is_empty {A} (l : list A) : bool :=
  match l with [] => true | _ => false end.

(** ** The table [mercadorias] behind [conn] *)

Inductive sqltype := TEXT | INTEGER.

#[global] Instance sqltype_eq_dec : EqDecision sqltype.
Proof. solve_decision. Defined.

(** Declared columns in [PRAGMA table_info] order, and the rows, each a
    map from column name to the value bound to it (no entry, like an
    entry [None], is NULL).  The table exists from start-up on (lines
    83-86), so [CREATE TABLE IF NOT EXISTS] never changes it. *)
Record table := {
  columns : list (pystr * sqltype);
  records : list (gmap pystr value)
}.

Definition codigo : pystr := lit "codigo".
Definition produto : pystr := lit "produto".
Definition categoria : pystr := lit "categoria".
Definition rua : pystr := lit "rua".
Definition nivel : pystr := lit "nivel".
Definition predio : pystr := lit "predio".
Definition qtde : pystr := lit "qtde".

Definition column_names (t : table) : list pystr := map fst (columns t).

(** The value read from a row. *)
Definition field (r : gmap pystr value) (c : pystr) : value :=
  default PNone (r !! c).

(** [WHERE codigo=?]: a NULL parameter matches no row. *)
Definition row_matches (k : value) (r : gmap pystr value) : bool :=
  match k with
  | PNone | PNaN => false
  | _ => bool_decide (r !! codigo = Some k)
  end.

(** The non-NULL keys, which [PRIMARY KEY] keeps distinct. *)
Definition pk_values (recs : list (gmap pystr value)) : list value :=
  omap (fun r => match r !! codigo with
                 | Some (PStr s) => Some (PStr s)
                 | Some (PInt z) => Some (PInt z)
                 | _ => None
                 end) recs.

Definition pk_unique (recs : list (gmap pystr value)) : bool :=
  bool_decide (NoDup (pk_values recs)).

Definition assign (r : gmap pystr value) (cv : pystr * value) : gmap pystr value :=
  <[cv.1 := cv.2]> r.

(** ** State, exceptions and the messages shown *)

Inductive message :=
  | ErrorPlanilhaSemCodigo          (* st.error, line 141 *)
  | ErrorPreenchaCodigo             (* st.error, line 299 *)
  | SuccessAtualizadoManual         (* st.success, lines 318 and 351 *)
  | SuccessInseridoManual           (* st.success, lines 337 and 359 *)
  | SuccessAtualizado (cod : pystr) (* st.success, line 424 *).

Record state := {
  conn : table;
  shown : list message
}.

Definition M (A : Type) : Type := state -> state * res A.

Definition ret {A} (a : A) : M A := fun s => (s, Ok a).

Definition raise {A} (e : exn) : M A := fun s => (s, Raise e).

Definition mbind {A B} (m : M A) (k : A -> M B) : M B :=
  fun s =>
    match m s with
    | (s', Ok a) => k a s'
    | (s', Raise e) => (s', Raise e)
    end.

Notation "x <~ m ;; k" := (mbind m (fun x => k))
  (at level 100, m at next level, right associativity).
Notation "m ;;; k" := (mbind m (fun _ => k))
  (at level 100, right associativity).

Definition lift {A} (r : res A) : M A := fun s => (s, r).

Definition st_show (m : message) : M unit :=
  fun s => ({| conn := conn s; shown := shown s ++ [m] |}, Ok tt).

Definition with_table (s : state) (t : table) : state :=
  {| conn := t; shown := shown s |}.

(** *** SQL statements *)

Definition create_table_if_not_exists : M unit := ret tt.

(** [PRAGMA table_info] *)
Definition table_info : M (list (pystr * sqltype)) :=
  fun s => (s, Ok (columns (conn s))).

(** [ALTER TABLE ... ADD COLUMN "col" ctype]: SQLite refuses a name equal,
    ignoring ASCII case, to that of an existing column.  Line 56 writes
    [col] between double quotes into the statement, so this is the
    statement's effect for a name without a double quote, such as the
    names of [friendly_to_normal] and the normaliser's [[0-9a-z_]+]
    ([plain_name]); the limit on the number of columns (2000 by default)
    is not modelled. *)
Definition alter_table_add_column (col : pystr) (ctype : sqltype) : M unit :=
  fun s =>
    let t := conn s in
    if bool_decide (lower_ascii col ∈ map lower_ascii (column_names t))
    then (s, Raise OperationalError)
    else (with_table s {| columns := columns t ++ [(col, ctype)];
                          records := records t |}, Ok tt).

(** [SELECT 1 FROM ... WHERE codigo=?] followed by [fetchone() is not None] *)
Definition select_codigo (k : value) : M bool :=
  fun s => (s, Ok (existsb (row_matches k) (records (conn s)))).

Definition known_columns (t : table) (cs : list pystr) : bool :=
  forallb (fun c => bool_decide (c ∈ column_names t)) cs.

(** [UPDATE ... SET "c1" = ?, ... WHERE codigo=?] with [params]: one
    parameter per placeholder, the last one for the [WHERE].  Column names
    are matched exactly, as the callers take them from [table_info].  The
    row keeps each parameter as it is bound: SQLite does so for the
    parameters that are [stored_as_bound], converts others to the column's
    affinity and refuses an integer beyond 64 bits with [OverflowError]. *)
Definition execute_update (set_parts : list pystr) (params : list value) : M unit :=
  fun s =>
    let t := conn s in
    if negb (known_columns t set_parts) then (s, Raise OperationalError)
    else if negb (length params =? S (length set_parts))%nat
    then (s, Raise ProgrammingError)
    else
      let k := default PNone (last params) in
      let recs' :=
        map (fun r => if row_matches k r
                      then foldl assign r (zip set_parts params)
                      else r) (records t) in
      if pk_unique recs'
      then (with_table s {| columns := columns t; records := recs' |}, Ok tt)
      else (s, Raise IntegrityError).

(** [INSERT INTO ... (cols) VALUES (?, ...)] with one placeholder per
    column; the parameters are kept as for [execute_update]. *)
Definition execute_insert (insert_cols : list pystr) (insert_vals : list value) : M unit :=
  fun s =>
    let t := conn s in
    if negb (known_columns t insert_cols) then (s, Raise OperationalError)
    else if negb (length insert_vals =? length insert_cols)%nat
    then (s, Raise ProgrammingError)
    else
      let recs' := records t ++ [foldl assign ∅ (zip insert_cols insert_vals)] in
      if pk_unique recs'
      then (with_table s {| columns := columns t; records := recs' |}, Ok tt)
      else (s, Raise IntegrityError).

(** ** [ensure_table_and_columns], lines 39-57 *)

(** The loop of lines 54-56; [existing] is the set read before the loop. *)
Fixpoint add_missing (existing : list pystr) (cols : list (pystr * sqltype)) : M unit :=
  match cols with
  | [] => ret tt
  | (col, ctype) :: rest =>
      if bool_decide (col ∈ existing) then add_missing existing rest
      else alter_table_add_column col ctype ;;; add_missing existing rest
  end.

Definition ensure_table_and_columns (cols : list (pystr * sqltype)) : M unit :=
  create_table_if_not_exists ;;;
  info <~ table_info ;;
  add_missing (map fst info) cols.

(** [get_table_columns], lines 59-62 *)
Definition get_table_columns : M (list pystr) :=
  info <~ table_info ;; ret (map fst info).

(** ** Start-up, lines 75-112 *)

Definition friendly_to_normal : dict pystr :=
  [ (lit "c" ++ [243] ++ lit "digo", codigo);
    (lit "codigo", codigo);
    (lit "produto", produto);
    (lit "categoria", categoria);
    (lit "rua", rua);
    (lit "n" ++ [237] ++ lit "vel", nivel);
    (lit "nivel", nivel);
    (lit "pr" ++ [233] ++ lit "dio", predio);
    (lit "predio", predio);
    (lit "qtde", qtde);
    (lit "quantidade", qtde) ].

Definition base_columns : list (pystr * sqltype) :=
  [ (produto, TEXT); (categoria, TEXT); (rua, TEXT); (nivel, TEXT);
    (predio, TEXT); (qtde, INTEGER) ].

(** A fresh database file: the table of lines 83-85. *)
Definition fresh_table : table :=
  {| columns := [(codigo, TEXT)]; records := [] |}.

Definition startup : M unit := ensure_table_and_columns base_columns.

(** ** [import_excel_inteligente], lines 116-248 *)

(** The sheet as [pd.read_excel(..., dtype=object)] returns it: the header
    of each column (after [str]) and the data rows, one cell per column. *)
Record dataframe := {
  df_columns : list pystr;
  df_rows : list (list value)
}.

Fixpoint index_of (x : pystr) (l : list pystr) : option nat :=
  match l with
  | [] => None
  | y :: l' => if decide (y = x) then Some 0%nat else S <$> index_of x l'
  end.

(** [row.get(orig, None)] for a label that occurs once among the stripped
    headers [cols], or not at all.  For a label that occurs twice (two
    headers equal after stripping) pandas returns a [Series] of the cells,
    which is outside the model: the statements that depend on the cell a
    label selects assume [NoDup cols]. *)
Definition row_get (cols : list pystr) (row : list value) (orig : pystr) : value :=
  match index_of orig cols with
  | Some i => default PNone (row !! i)
  | None => PNone
  end.

(** Lines 128-135. *)
Fixpoint build_colmap (cols : list pystr) (colmap : dict pystr) : res (dict pystr) :=
  match cols with
  | [] => Ok colmap
  | orig :: rest =>
      let low := lower orig in
      match dict_get friendly_to_normal low with
      | Some norm => build_colmap rest (dict_set colmap orig norm)
      | None =>
          bind (normalize_colname orig) (fun norm =>
          build_colmap rest (dict_set colmap orig norm))
      end
  end.

(** Line 139. *)
Definition codigo_cols (colmap : dict pystr) : list pystr :=
  map fst (filter (fun on => on.2 = codigo) colmap).

(** Lines 146-151. *)
Definition columns_to_ensure (colmap : dict pystr) : list (pystr * sqltype) :=
  map (fun on => if decide (on.2 = qtde) then (on.2, INTEGER) else (on.2, TEXT))
      colmap.

(** [v is None or (isinstance(v, float) and pd.isna(v))] *)
Definition is_missing (v : value) : bool :=
  match v with
  | PNone | PNaN => true
  | _ => false
  end.

(** Lines 175-189: the row's values by normalised column. *)
Fixpoint collect_values (cols : list pystr) (row : list value)
    (colmap : dict pystr) (values : dict value) : dict value :=
  match colmap with
  | [] => values
  | (orig, norm) :: rest =>
      let val := row_get cols row orig in
      match val with
      | PNone | PNaN => collect_values cols row rest values
      | PStr s =>
          let v := strip s in
          if decide (v = []) then collect_values cols row rest values
          else collect_values cols row rest (dict_set values norm (PStr v))
      | PInt _ => collect_values cols row rest (dict_set values norm val)
      end
  end.

(** Lines 192-193. *)
Definition row_values (cols : list pystr) (row : list value)
    (colmap : dict pystr) : dict value :=
  let values := collect_values cols row colmap [] in
  if bool_decide (is_Some (dict_get values codigo)) then dict_pop values codigo
  else values.

(** Lines 200-216.  A [set_parts] entry ["col" = ?] is modelled by [col]. *)
Fixpoint update_parts (db_cols : list pystr) (items : dict value)
    (set_parts : list pystr) (params : list value) : list pystr * list value :=
  match items with
  | [] => (set_parts, params)
  | (colname, val) :: rest =>
      if negb (bool_decide (colname ∈ db_cols))
      then update_parts db_cols rest set_parts params
      else
        let set_parts := set_parts ++ [colname] in
        if decide (colname = qtde) then
          match int_float val with
          | Ok v => update_parts db_cols rest set_parts (params ++ [PInt v])
          | Raise _ => update_parts db_cols rest set_parts params
          end
        else update_parts db_cols rest set_parts (params ++ [val])
  end.

(** Lines 226-239. *)
Fixpoint insert_parts (db_cols : list pystr) (items : dict value)
    (insert_cols : list pystr) (insert_vals : list value) : list pystr * list value :=
  match items with
  | [] => (insert_cols, insert_vals)
  | (colname, val) :: rest =>
      if negb (bool_decide (colname ∈ db_cols))
      then insert_parts db_cols rest insert_cols insert_vals
      else
        let insert_cols := insert_cols ++ [colname] in
        if decide (colname = qtde) then
          let v := match int_float val with
                   | Ok v => PInt v
                   | Raise _ => PNone
                   end in
          insert_parts db_cols rest insert_cols (insert_vals ++ [v])
        else insert_parts db_cols rest insert_cols (insert_vals ++ [val])
  end.

(** (inserted, updated, ignored) *)
Abbreviation counters := (nat * nat * nat)%type.

(** One iteration of the loop of lines 162-245. *)
Definition process_row (cols : list pystr) (colmap : dict pystr)
    (codigo_col : pystr) (db_cols : list pystr)
    (row : list value) (cnt : counters) : M counters :=
  let '(inserted, updated, ignored) := cnt in
  let codigo_val := row_get cols row codigo_col in
  if is_missing codigo_val || bool_decide (strip (py_str codigo_val) = [])
  then ret (inserted, updated, S ignored)
  else
    let codigo_val := strip (py_str codigo_val) in
    exists_ <~ select_codigo (PStr codigo_val) ;;
    let values := row_values cols row colmap in
    if exists_ then
      if is_empty values then ret (inserted, updated, S ignored)
      else
        let '(set_parts, params) := update_parts db_cols values [] [] in
        if is_empty set_parts then ret (inserted, updated, S ignored)
        else
          execute_update set_parts (params ++ [PStr codigo_val]) ;;;
          ret (inserted, S updated, ignored)
    else
      let '(insert_cols, insert_vals) :=
        insert_parts db_cols values [codigo] [PStr codigo_val] in
      execute_insert insert_cols insert_vals ;;;
      ret (S inserted, updated, ignored).

Fixpoint process_rows (cols : list pystr) (colmap : dict pystr)
    (codigo_col : pystr) (db_cols : list pystr)
    (rows : list (list value)) (cnt : counters) : M counters :=
  match rows with
  | [] => ret cnt
  | row :: rest =>
      cnt' <~ process_row cols colmap codigo_col db_cols row cnt ;;
      process_rows cols colmap codigo_col db_cols rest cnt'
  end.

(** The [conn.commit()] of line 247 is not modelled: the state is what the
    connection sees. *)
Definition import_excel_inteligente (df : dataframe) : M counters :=
  let cols := map strip (df_columns df) in
  colmap <~ lift (build_colmap cols []) ;;
  match codigo_cols colmap with
  | [] => st_show ErrorPlanilhaSemCodigo ;;; ret (0, 0, 0)%nat
  | codigo_col :: _ =>
      ensure_table_and_columns (columns_to_ensure colmap) ;;;
      db_cols <~ get_table_columns ;;
      process_rows cols colmap codigo_col db_cols (df_rows df) (0, 0, 0)%nat
  end.

(** ** [update_single_record], lines 254-272 *)

Fixpoint single_parts (db_cols : list pystr) (updates : dict value)
    (set_parts : list pystr) (params : list value) : list pystr * list value :=
  match updates with
  | [] => (set_parts, params)
  | (col, val) :: rest =>
      if negb (bool_decide (col ∈ db_cols))
      then single_parts db_cols rest set_parts params
      else single_parts db_cols rest (set_parts ++ [col]) (params ++ [val])
  end.

Definition update_single_record (cod : pystr) (updates : dict value) : M bool :=
  if is_empty updates then ret false
  else
    db_cols <~ get_table_columns ;;
    let '(set_parts, params) := single_parts db_cols updates [] [] in
    if is_empty set_parts then ret false
    else
      execute_update set_parts (params ++ [PStr cod]) ;;;
      ret true.

(** ** The manual registration form, lines 297-359 *)

Record cadastro := {
  codigo_in : pystr;
  produto_in : pystr;
  categoria_in : pystr;
  rua_in : pystr;
  nivel_in : pystr;
  predio_in : pystr;
  qtde_in : Z;
  other_label : pystr;
  other_value : pystr
}.

(** [if x: updates[k] = x] *)
Definition set_if_filled (updates : dict value) (k x : pystr) : dict value :=
  if is_empty x then updates else dict_set updates k (PStr x).

(** Lines 309-315 and 343-349. *)
Definition filled_updates (f : cadastro) : dict value :=
  let updates := set_if_filled [] produto (produto_in f) in
  let updates := set_if_filled updates categoria (categoria_in f) in
  let updates := set_if_filled updates rua (rua_in f) in
  let updates := set_if_filled updates nivel (nivel_in f) in
  let updates := set_if_filled updates predio (predio_in f) in
  dict_set updates qtde (PInt (qtde_in f)).

(** [x if x else None] *)
Definition or_none (x : pystr) : value :=
  if is_empty x then PNone else PStr x.

(** Lines 329-332: the columns of [cols] that exist, with their values. *)
Fixpoint existing_parts (existing : list pystr) (cols : list pystr)
    (vals : list value) : list pystr * list value :=
  match cols, vals with
  | col :: cols', val :: vals' =>
      let (ic, iv) := existing_parts existing cols' vals' in
      if bool_decide (col ∈ existing) then (col :: ic, val :: iv) else (ic, iv)
  | _, _ => ([], [])
  end.

Definition cadastrar_manualmente (f : cadastro) : M unit :=
  let cod := strip (codigo_in f) in
  if is_empty cod then st_show ErrorPreenchaCodigo
  else if negb (is_empty (strip (other_label f))) then
    norm <~ lift (normalize_colname (other_label f)) ;;
    ensure_table_and_columns [(norm, TEXT)] ;;;
    found <~ select_codigo (PStr cod) ;;
    if found then
      let updates := filled_updates f in
      let updates := dict_set updates norm (or_none (other_value f)) in
      update_single_record cod updates ;;;
      st_show SuccessAtualizadoManual
    else
      let cols := [codigo; produto; categoria; rua; nivel; predio; qtde; norm] in
      let vals := [PStr cod; PStr (produto_in f); PStr (categoria_in f);
                   PStr (rua_in f); PStr (nivel_in f); PStr (predio_in f);
                   PInt (qtde_in f); or_none (other_value f)] in
      ensure_table_and_columns [(norm, TEXT)] ;;;
      existing <~ get_table_columns ;;
      let '(insert_cols, insert_vals) := existing_parts existing cols vals in
      execute_insert insert_cols insert_vals ;;;
      st_show SuccessInseridoManual
  else
    found <~ select_codigo (PStr cod) ;;
    if found then
      update_single_record cod (filled_updates f) ;;;
      st_show SuccessAtualizadoManual
    else
      ensure_table_and_columns base_columns ;;;
      execute_insert
        [codigo; produto; categoria; rua; nivel; predio; qtde]
        [PStr cod; PStr (produto_in f); PStr (categoria_in f);
         PStr (rua_in f); PStr (nivel_in f); PStr (predio_in f);
         PInt (qtde_in f)] ;;;
      st_show SuccessInseridoManual.

(** ** The edit form of one listed record, lines 412-424 *)

Record edicao := {
  ed_codigo : pystr;
  produto_inp : pystr;
  categoria_inp : pystr;
  rua_inp : pystr;
  nivel_inp : pystr;
  predio_inp : pystr;
  qtde_inp : Z
}.

(** What a submitted edit form does.  The form is drawn under
    [if st.button("Buscar / Listar")] (line 375), which holds only in the
    script run that follows the click: in the run that follows the form's
    submission the forms are not drawn again and these lines are not
    reached.  [run_action] takes them as reachable, which only adds
    behaviours. *)
Definition atualizar_registro (f : edicao) : M unit :=
  let updates :=
    [ (produto, PStr (produto_inp f)); (categoria, PStr (categoria_inp f));
      (rua, PStr (rua_inp f)); (nivel, PStr (nivel_inp f));
      (predio, PStr (predio_inp f)); (qtde, PInt (qtde_inp f)) ] in
  update_single_record (ed_codigo f) updates ;;;
  st_show (SuccessAtualizado (ed_codigo f)).

(** ** Sequences of user actions *)

Inductive action :=
  | Importar (df : dataframe)
  | Cadastrar (f : cadastro)
  | Atualizar (f : edicao).

(** One action; an exception that escapes ends the script run and the
    state reached is kept. *)
Definition run_action (a : action) (s : state) : state :=
  match a with
  | Importar df => (import_excel_inteligente df s).1
  | Cadastrar f => (cadastrar_manualmente f s).1
  | Atualizar f => (atualizar_registro f s).1
  end.

Definition run_actions (l : list action) (s : state) : state :=
  foldl (fun s a => run_action a s) s l.

(** The state after start-up on a fresh database file. *)
Definition initial_state : state :=
  (startup {| conn := fresh_table; shown := [] |}).1.

(** ** Sample sheets and states *)

Definition txt (s : string) : value := PStr (lit s).

Definition sheet (headers : list string) (rows : list (list value)) : dataframe :=
  {| df_columns := map lit headers; df_rows := rows |}.

(** What a listing shows of a row: key, product and quantity. *)
Definition summary (r : gmap pystr value) : value * value * value :=
  (field r codigo, field r produto, field r qtde).

(** The store after importing one row [A1, Bolt, "12.0"]. *)
Definition stocked : state :=
  (import_excel_inteligente
     (sheet ["codigo"; "produto"; "qtde"]%string
            [[txt "A1"; txt "Bolt"; txt "12.0"]]) initial_state).1.

(** ** Notions used by the statements *)

(** [row_has_value], lines 64-71. *)
Definition row_has_value (val : value) : bool :=
  match val with
  | PNaN => false
  | PNone => false
  | _ => negb (bool_decide (strip (py_str val) = []))
  end.

(** The requested columns that the table lacks, in request order. *)
Definition missing_columns (existing : list pystr) (cols : list (pystr * sqltype))
    : list (pystr * sqltype) :=
  filter (fun cn => cn.1 ∉ existing) cols.

(** The key stored in each row, in row order. *)
Definition keys (t : table) : list (option value) :=
  map (fun r => r !! codigo) (records t).

(** Every row has a text key and no two rows share one. *)
Definition well_keyed (t : table) : Prop :=
  Forall (fun r => exists k, r !! codigo = Some (PStr k)) (records t)
  /\ NoDup (keys t).

(** "Either all requested fields are there or the schema is unchanged." *)
Definition all_or_nothing (cols : list (pystr * sqltype)) (s s' : state) : Prop :=
  Forall (fun c => c ∈ column_names (conn s')) (map fst cols)
  \/ columns (conn s') = columns (conn s).

(** A request naming the new column [lote] twice, then [zona]. *)
Definition lote_lote_zona : list (pystr * sqltype) :=
  [ (lit "lote", TEXT); (lit "lote", TEXT); (lit "zona", TEXT) ].

(** "The call is rejected": it does not report success and the rows are
    as before. *)
Definition rejected (s : state) (out : state * res bool) : Prop :=
  out.2 <> Ok true /\ records (conn out.1) = records (conn s).

(** An operation keeps the keys: a well-keyed table stays well-keyed, and
    the rows it had keep their place and their key. *)
Definition keeps_keys (s s' : state) : Prop :=
  (well_keyed (conn s) -> well_keyed (conn s'))
  /\ keys (conn s) `prefix_of` keys (conn s').

Definition key_preserving {A} (m : M A) : Prop :=
  forall s, keeps_keys s (m s).1.

(** The number of rows counted. *)
Definition total (cnt : counters) : nat := (cnt.1.1 + cnt.1.2 + cnt.2)%nat.

(** The value the import binds for a column: the quantity as an integer,
    nothing when it does not parse; any other value as it is. *)
Definition bound_value (colname : pystr) (val : value) : option value :=
  if decide (colname = qtde) then
    match int_float val with
    | Ok v => Some (PInt v)
    | Raise _ => None
    end
  else Some val.

(** The columns of the table among [items], with the values bound to them
    ([None] for a quantity that does not parse). *)
Definition bindings (db_cols : list pystr) (items : dict value) : dict value :=
  map (fun cv => (cv.1, default PNone (bound_value cv.1 cv.2)))
      (filter (fun cv => cv.1 ∈ db_cols) items).

(** The entries of [updates] whose column the table has. *)
Definition known_updates (db_cols : list pystr) (updates : dict value) : dict value :=
  filter (fun cv => cv.1 ∈ db_cols) updates.

(** What a form writes into a text field: nothing when the input is empty
    and [keep_empty] holds, the input otherwise. *)
Definition form_text (keep_empty : bool) (x : pystr)
    (old : option value) : option value :=
  if keep_empty && is_empty x then old else Some (PStr x).

(** A name as the normaliser would return it: not empty, over [[0-9a-z_]].
    The seven names of [friendly_to_normal] are such names. *)
Definition plain_name (c : pystr) : bool :=
  negb (is_empty c)
  && forallb (fun ch => is_0_9_a_z ch || (ch =? underscore)) c.

(** SQLite takes the column name [c] for one of [names]: they are equal
    ignoring ASCII case. *)
Definition clashes (names : list pystr) (c : pystr) : Prop :=
  lower_ascii c ∈ map lower_ascii names.

#[global] Instance clashes_dec names c : Decision (clashes names c).
Proof. unfold clashes. apply _. Defined.

(** A string of Unicode scalar values; a lone surrogate cannot be encoded
    and makes the binding raise. *)
Definition scalar_text (s : pystr) : bool :=
  forallb (fun c => (c <? 55296) || ((57343 <? c) && (c <=? 1114111))) s.

(** SQLite stores the parameter [v] in a column declared [ty] as it is
    bound: [None] as NULL, text in a [TEXT] column, an integer of 64 bits
    in an [INTEGER] column. *)
Definition stored_as_bound (ty : sqltype) (v : value) : bool :=
  match v, ty with
  | PNone, _ => true
  | PStr s, TEXT => scalar_text s
  | PInt z, INTEGER => ((- 2 ^ 63 <=? z) && (z <? 2 ^ 63))%Z
  | _, _ => false
  end.

(** The column [c] exists and stores [v] as bound. *)
Definition binds_as_stored (t : table) (c : pystr) (v : value) : bool :=
  match dict_get (columns t) c with
  | Some ty => stored_as_bound ty v
  | None => false
  end.

(** Counters add up field by field. *)
Definition add_counters (a b : counters) : counters :=
  (a.1.1 + b.1.1, a.1.2 + b.1.2, a.2 + b.2)%nat.

(** The result of a run whose counters started from [a] instead of zero. *)
Definition shift_result (a : counters) (r : res counters) : res counters :=
  match r with
  | Ok b => Ok (add_counters a b)
  | Raise e => Raise e
  end.

(** * Properties *)

Lemma accents_lengths : length accents_from = 38%nat /\ length accents_to = 40%nat.
Proof. split; reflexivity. Qed.

Lemma normalize_colname_raises (name : pystr) :
  normalize_colname name = Raise ValueError.
Proof. reflexivity. Qed.

(** C8 (code defect): [str.maketrans] is given 38 characters to map onto
    40, so the normaliser raises [ValueError] on every string, the empty
    string and ["!!!"] included: it returns neither ["col"] nor anything
    else. *)
Theorem C8_normalize_colname_raises_for_every_string (name : pystr) :
  normalize_colname name = Raise ValueError
  /\ normalize_colname (lit "") <> Ok (lit "col")
  /\ normalize_colname (lit "!!!") <> Ok (lit "col").
Proof. repeat split; discriminate. Qed.

Example int_float_12_0 : int_float (PStr (lit "12.0")) = Ok 12%Z.
Proof. reflexivity. Qed.

Example int_float_abc : int_float (PStr (lit "abc")) = Raise ValueError.
Proof. reflexivity. Qed.

Example int_float_misc :
  int_float (PStr (lit " -7.9 ")) = Ok (-7)%Z
  /\ int_float (PStr (lit "1_0e2")) = Ok 1000%Z
  /\ int_float (PStr (lit "1__0")) = Raise ValueError
  /\ int_float (PStr (lit ".5")) = Ok 0%Z
  /\ int_float (PStr (lit "5.")) = Ok 5%Z
  /\ int_float (PStr (lit ".")) = Raise ValueError
  /\ int_float (PStr (lit "Inf")) = Raise OverflowError
  /\ int_float (PStr (lit "12,0")) = Raise ValueError
  /\ int_float (PInt 42) = Ok 42%Z.
Proof. repeat split; reflexivity. Qed.

(** Rounding to binary64, overflow, and digits of other scripts (here the
    Arabic-Indic 1 and 2). *)
Example int_float_binary64 :
  int_float (PStr (lit "0.99999999999999999")) = Ok 1%Z
  /\ int_float (PStr (lit "9007199254740993")) = Ok 9007199254740992%Z
  /\ int_float (PStr (lit "1e23")) = Ok 99999999999999991611392%Z
  /\ int_float (PStr (lit "1e400")) = Raise OverflowError
  /\ int_float (PStr (lit "1e-400")) = Ok 0%Z
  /\ int_float (PStr (lit "nan")) = Raise ValueError
  /\ int_float (PStr [1633; 1634]) = Ok 12%Z
  /\ int_float (PStr (160 :: lit "12")) = Ok 12%Z
  /\ int_float (PStr (28 :: lit "12")) = Raise ValueError
  /\ int_float (PInt (2 ^ 53 + 1)) = Ok (2 ^ 53)%Z
  /\ int_float (PInt (2 ^ 1024)) = Raise OverflowError.
Proof. repeat split; vm_compute; reflexivity. Qed.

(** ** Quantity coercion *)

Lemma stocked_summary :
  map summary (records (conn stocked)) = [(txt "A1", txt "Bolt", PInt 12)].
Proof. vm_compute. reflexivity. Qed.

(** On the insert path a quantity that does not parse is stored as NULL and
    the rest of the row is applied. *)
Lemma bad_quantity_on_insert :
  let r := import_excel_inteligente
             (sheet ["codigo"; "produto"; "qtde"]%string
                    [[txt "A2"; txt "Nut"; txt "abc"]]) stocked in
  r.2 = Ok (1, 0, 0)%nat
  /\ map summary (records (conn r.1))
     = [(txt "A1", txt "Bolt", PInt 12); (txt "A2", txt "Nut", PNone)].
Proof. vm_compute. split; reflexivity. Qed.

(** C2 (code defect): the quantity ["12.0"] is stored as the integer 12, but
    on the update path a quantity that does not parse leaves its [SET] entry
    without a parameter (line 206 runs before the [try] of line 209), so the
    [UPDATE] raises [ProgrammingError]: the import is aborted and the rest
    of the row (here the product) is not applied. *)
Theorem C2_bad_quantity_aborts_update :
  map summary (records (conn stocked)) = [(txt "A1", txt "Bolt", PInt 12)]
  /\ import_excel_inteligente
       (sheet ["codigo"; "produto"; "qtde"]%string
              [[txt "A1"; txt "Nut"; txt "abc"]]) stocked
     = (stocked, Raise ProgrammingError).
Proof. vm_compute. split; reflexivity. Qed.

(** ** The key column check *)

(** C3 (code defect): a sheet without a key column whose header is not in
    the synonym table does not reach the key check of line 140: the
    normaliser raises [ValueError] at line 135, and no message about the
    missing key column is shown.  The store is untouched. *)
Theorem C3_unknown_header_raises_before_key_check :
  import_excel_inteligente (sheet ["Lote"]%string [[txt "L1"]]) initial_state
  = (initial_state, Raise ValueError).
Proof. vm_compute. reflexivity. Qed.

(** ** Counters *)

(** C4 (code defect): a sheet with a key column does not always yield
    counters: an extra header outside the synonym table raises [ValueError]
    before any row is read, and an unparseable quantity for an existing key
    raises [ProgrammingError] in the middle of the rows. *)
Theorem C4_import_with_key_column_may_raise :
  import_excel_inteligente
    (sheet ["codigo"; "Lote"]%string [[txt "A1"; txt "L1"]]) initial_state
  = (initial_state, Raise ValueError)
  /\ (import_excel_inteligente
        (sheet ["codigo"; "qtde"]%string
               [[txt "A1"; txt "abc"]; [txt "A9"; txt "1"]]) stocked).2
     = Raise ProgrammingError.
Proof. vm_compute. split; reflexivity. Qed.

(** ** Repeated keys in one sheet *)

(** C10 (code defect): the first row inserts the new key [B7]; the second
    row has the same key and an unparseable quantity, and the import raises
    [ProgrammingError] instead of counting the row.  The store still holds
    one record for the key. *)
Theorem C10_repeated_key_with_bad_quantity_raises :
  let r := import_excel_inteligente
             (sheet ["codigo"; "qtde"]%string
                    [[txt "B7"; txt "5"]; [txt "B7"; txt "abc"]])
             initial_state in
  r.2 = Raise ProgrammingError
  /\ map summary (records (conn r.1)) = [(txt "B7", PNone, PInt 5)].
Proof. vm_compute. split; reflexivity. Qed.

(** Without the unparseable quantity the later occurrence is an update. *)
Lemma repeated_key_updates :
  let r := import_excel_inteligente
             (sheet ["codigo"; "qtde"]%string
                    [[txt "B7"; txt "5"]; [txt "B7"; txt "8"]; [txt "B7"; PNaN]])
             initial_state in
  r.2 = Ok (1, 1, 1)%nat
  /\ map summary (records (conn r.1)) = [(txt "B7", PNone, PInt 8)].
Proof. vm_compute. split; reflexivity. Qed.

(** ** Lists *)

Lemma elem_of_map {A B} (f : A -> B) (l : list A) (y : B) :
  y ∈ map f l <-> exists x, y = f x /\ x ∈ l.
Proof. apply (list_elem_of_fmap f l y). Qed.

Lemma elem_of_map_2 {A B} (f : A -> B) (l : list A) (x : A) :
  x ∈ l -> f x ∈ map f l.
Proof. intros H. apply elem_of_map. eauto. Qed.

(** ** The schema evolver *)

Section Ensure.

Lemma add_missing_spec existing cols s :
  exists added,
    columns (conn (add_missing existing cols s).1) = columns (conn s) ++ added
    /\ added `prefix_of` missing_columns existing cols
    /\ ((add_missing existing cols s).2 = Ok tt ->
        added = missing_columns existing cols)
    /\ ((add_missing existing cols s).2 <> Ok tt ->
        (add_missing existing cols s).2 = Raise OperationalError)
    /\ records (conn (add_missing existing cols s).1) = records (conn s)
    /\ shown (add_missing existing cols s).1 = shown s.
Proof.
  revert s. induction cols as [|[col ctype] rest IH]; intros s.
  - exists []. simpl. rewrite app_nil_r. repeat split; try done.
  - unfold missing_columns. simpl add_missing. rewrite filter_cons. simpl.
    case_bool_decide as Hin.
    + rewrite decide_False by (intros Hn; by apply Hn).
      apply IH.
    + rewrite decide_True by done.
      unfold mbind, alter_table_add_column.
      case_bool_decide as Hdup.
      * exists []. simpl. rewrite app_nil_r.
        repeat split; try done. apply prefix_nil.
      * destruct (IH (with_table s
            {| columns := columns (conn s) ++ [(col, ctype)];
               records := records (conn s) |})) as (added & Hc & Hp & Hok & Herr & Hr & Hs).
        exists ((col, ctype) :: added). simpl in *.
        rewrite Hc, <- app_assoc. simpl.
        repeat split; try done.
        -- by apply prefix_cons.
        -- intros H. by rewrite (Hok H).
Qed.

Lemma add_missing_all_present existing cols s :
  (forall c, c ∈ map fst cols -> c ∈ existing) ->
  add_missing existing cols s = (s, Ok tt).
Proof.
  induction cols as [|[col ctype] rest IH]; intros H; [done|].
  simpl. rewrite bool_decide_eq_true_2.
  - apply IH. intros c Hc. apply H. simpl. by apply list_elem_of_further.
  - apply H. simpl. apply list_elem_of_here.
Qed.

Lemma add_missing_succeeds existing cols s :
  NoDup (map lower_ascii (map fst (missing_columns existing cols))) ->
  (forall c, c ∈ map fst (missing_columns existing cols) ->
             lower_ascii c ∉ map lower_ascii (column_names (conn s))) ->
  (add_missing existing cols s).2 = Ok tt.
Proof.
  revert s. induction cols as [|[col ctype] rest IH]; intros s Hnd Hfresh; [done|].
  unfold missing_columns in *. simpl add_missing.
  rewrite filter_cons in Hnd, Hfresh. simpl in Hnd, Hfresh.
  case_bool_decide as Hin.
  - rewrite decide_False in Hnd, Hfresh by (intros Hn; by apply Hn).
    by apply IH.
  - rewrite decide_True in Hnd, Hfresh by done. simpl in Hnd, Hfresh.
    apply NoDup_cons in Hnd as [Hhd Htl].
    unfold mbind, alter_table_add_column.
    rewrite bool_decide_eq_false_2 by (apply Hfresh, list_elem_of_here).
    apply IH; [done|].
    intros c Hc. unfold column_names. simpl.
    rewrite !map_app. simpl. rewrite elem_of_app.
    intros [Hold|Hnew].
    + eapply Hfresh; [by apply list_elem_of_further|done].
    + apply list_elem_of_singleton in Hnew. apply Hhd. rewrite <- Hnew.
      by apply elem_of_map_2.
Qed.

Lemma ensure_unfold cols s :
  ensure_table_and_columns cols s
  = add_missing (column_names (conn s)) cols s.
Proof. reflexivity. Qed.

Lemma dict_get_app_l {V} (d d' : dict V) (k : pystr) :
  k ∈ map fst d -> dict_get (d ++ d') k = dict_get d k.
Proof.
  induction d as [|[k' v] d IH]; simpl; intros H.
  - by apply elem_of_nil in H.
  - destruct (decide (k' = k)); [done|].
    apply IH. apply elem_of_cons in H as [H|H]; [congruence|done].
Qed.

(** The call succeeds when the missing names are pairwise distinct and
    differ from the existing ones, ignoring case. *)
Lemma ensure_succeeds cols s :
  NoDup (map lower_ascii
           (map fst (missing_columns (column_names (conn s)) cols))) ->
  (forall c, c ∈ map fst (missing_columns (column_names (conn s)) cols) ->
             lower_ascii c ∉ map lower_ascii (column_names (conn s))) ->
  (ensure_table_and_columns cols s).2 = Ok tt.
Proof. rewrite ensure_unfold. apply add_missing_succeeds. Qed.

(** C5, as stated, fails: asked for [lote], [lote], [zona], the call adds
    [lote], is refused the second [lote] and never adds [zona]. *)
Lemma C5_partial_schema_growth :
  ~ all_or_nothing lote_lote_zona initial_state
      (ensure_table_and_columns lote_lote_zona initial_state).1.
Proof. apply (bool_decide_eq_false_1 _). vm_compute. reflexivity. Qed.

Lemma ensure_table_and_columns_spec cols s :
  let out := ensure_table_and_columns cols s in
  let missing := missing_columns (column_names (conn s)) cols in
  exists added,
    columns (conn out.1) = columns (conn s) ++ added
    /\ added `prefix_of` missing
    /\ (out.2 = Ok tt ->
        added = missing
        /\ Forall (fun c => c ∈ column_names (conn out.1)) (map fst cols))
    /\ (out.2 <> Ok tt -> out.2 = Raise OperationalError)
    /\ records (conn out.1) = records (conn s).
Proof.
  intros out missing. subst out missing. rewrite ensure_unfold.
  destruct (add_missing_spec (column_names (conn s)) cols s)
    as (added & Hc & Hp & Hok & Herr & Hr & _).
  exists added. repeat split; try done.
  - by apply Hok.
  - apply Forall_forall. intros c Hc'.
    unfold column_names at 1. rewrite Hc, map_app, elem_of_app.
    destruct (decide (c ∈ column_names (conn s))) as [|Hn]; [by left|right].
    rewrite (Hok H). apply elem_of_map in Hc' as ([c' ty] & -> & Hin).
    apply elem_of_map_2. unfold missing_columns.
    apply list_elem_of_filter. by split.
Qed.

(** The loop in closed form: it adds the missing fields in order up to the
    first one that SQLite refuses, which is the first whose name clashes
    with a column of the table or with a field added before it. *)
Lemma add_missing_exact existing cols s :
  let out := add_missing existing cols s in
  let missing := missing_columns existing cols in
  exists added,
    columns (conn out.1) = columns (conn s) ++ added
    /\ records (conn out.1) = records (conn s)
    /\ (forall a1 c ty a2, added = a1 ++ (c, ty) :: a2 ->
          ~ clashes (column_names (conn s) ++ map fst a1) c)
    /\ ((out.2 = Ok tt /\ added = missing)
        \/ (out.2 = Raise OperationalError
            /\ exists c ty rest,
                 missing = added ++ (c, ty) :: rest
                 /\ clashes (column_names (conn s) ++ map fst added) c)).
Proof.
  cbv zeta. revert s. induction cols as [|[col ctype] rest IH]; intros s.
  - exists []. simpl. rewrite app_nil_r. repeat split; try done.
    + intros [|? a1] c ty a2 H; discriminate.
    + by left.
  - unfold missing_columns. simpl add_missing. rewrite filter_cons. simpl.
    case_bool_decide as Hin.
    + rewrite decide_False by (intros Hn; by apply Hn). apply IH.
    + rewrite decide_True by done.
      unfold mbind, alter_table_add_column.
      case_bool_decide as Hdup.
      * exists []. simpl. rewrite app_nil_r. repeat split; try done.
        -- intros [|? a1] c ty a2 H; discriminate.
        -- right. split; [done|]. eexists col, ctype, _. split; [done|].
           unfold clashes. by rewrite app_nil_r.
      * destruct (IH (with_table s
            {| columns := columns (conn s) ++ [(col, ctype)];
               records := records (conn s) |}))
          as (added & Hc & Hr & Hacc & Hend).
        exists ((col, ctype) :: added). simpl in *.
        rewrite Hc, <- app_assoc. simpl. repeat split; try done.
        -- intros [|a a1] c ty a2 Heq.
           ++ injection Heq as <- <- _. simpl. unfold clashes.
              by rewrite app_nil_r.
           ++ injection Heq as <- Heq. specialize (Hacc a1 c ty a2 Heq).
              unfold column_names in *. simpl in *.
              rewrite map_app in Hacc. simpl in Hacc.
              by rewrite <- app_assoc in Hacc.
        -- destruct Hend as [[Hok ->]|(Herr & c & ty & tl & Hm & Hcl)].
           ++ by left.
           ++ right. split; [done|]. exists c, ty, tl.
              unfold missing_columns in Hm. rewrite Hm.
              split; [done|]. unfold column_names in *. simpl in *.
              rewrite map_app in Hcl. simpl in Hcl.
              by rewrite <- app_assoc in Hcl.
Qed.

(** C5 (amended): for requested names that are plain identifiers and a
    table that stays within SQLite's limit of 2000 columns, a call adds the
    missing requested fields one at a time, in request order, and does not
    roll back.  Either it returns, and then every missing field has been
    added and all the requested fields are in the schema; or it raises
    [OperationalError] at the first missing field whose name SQLite takes
    for an existing one, and then the fields added before that one stay in
    the schema.  Every field that was added had a name that clashed with
    none before it, and the rows are never changed. *)
Theorem C5_ensure_adds_in_order_without_rollback cols s :
  let out := ensure_table_and_columns cols s in
  let missing := missing_columns (column_names (conn s)) cols in
  Forall (fun c => plain_name c = true) (map fst missing) ->
  (length (columns (conn s)) + length missing <= 2000)%nat ->
  exists added,
    columns (conn out.1) = columns (conn s) ++ added
    /\ records (conn out.1) = records (conn s)
    /\ (forall a1 c ty a2, added = a1 ++ (c, ty) :: a2 ->
          ~ clashes (column_names (conn s) ++ map fst a1) c)
    /\ ((out.2 = Ok tt /\ added = missing
         /\ Forall (fun c => c ∈ column_names (conn out.1)) (map fst cols))
        \/ (out.2 = Raise OperationalError
            /\ exists c ty rest,
                 missing = added ++ (c, ty) :: rest
                 /\ clashes (column_names (conn s) ++ map fst added) c)).
Proof.
  intros out missing _ _. subst out missing. rewrite ensure_unfold.
  destruct (add_missing_exact (column_names (conn s)) cols s)
    as (added & Hc & Hr & Hacc & Hend).
  exists added. repeat split; try done.
  destruct Hend as [[Hok Hall]|Herr]; [left|by right].
  repeat split; try done.
  destruct (ensure_table_and_columns_spec cols s) as (added' & _ & _ & Hok' & _).
  rewrite ensure_unfold in Hok'. by apply Hok'.
Qed.

(** Asked for [lote], [lote], [zona], the call raises and [lote] stays. *)
Lemma C5_witness :
  let out := ensure_table_and_columns lote_lote_zona initial_state in
  out.2 = Raise OperationalError
  /\ columns (conn out.1) = columns (conn initial_state) ++ [(lit "lote", TEXT)].
Proof.
  intros out.
  destruct (C5_ensure_adds_in_order_without_rollback lote_lote_zona initial_state)
    as (added & Hc & _ & Hacc & Hend).
  - apply (bool_decide_eq_true_1 _). vm_compute. reflexivity.
  - vm_compute. lia.
  - fold out in Hc, Hend.
    assert (Hraise : out.2 = Raise OperationalError) by (vm_compute; reflexivity).
    split; [exact Hraise|].
    destruct Hend as [[Hok _]|(_ & c & ty & rest & Hm & Hcl)].
    { rewrite Hraise in Hok. discriminate. }
    assert (Hmissing : missing_columns (column_names (conn initial_state))
                         lote_lote_zona = lote_lote_zona)
      by (vm_compute; reflexivity).
    rewrite Hmissing in Hm. rewrite Hc. f_equal.
    unfold lote_lote_zona in Hm.
    destruct added as [|a1 [|a2 [|a3 added]]].
    + exfalso. injection Hm as <- _ _.
      assert (Hfresh : ~ clashes (column_names (conn initial_state)
                                  ++ map fst (@nil (pystr * sqltype)))
                         (lit "lote"))
        by (apply (bool_decide_eq_false_1 _); vm_compute; reflexivity).
      exact (Hfresh Hcl).
    + by injection Hm as <- _.
    + exfalso. injection Hm as <- <- <- _ _.
      assert (Hfresh : ~ clashes (column_names (conn initial_state)
                                  ++ map fst [(lit "lote", TEXT); (lit "lote", TEXT)])
                         (lit "zona"))
        by (apply (bool_decide_eq_false_1 _); vm_compute; reflexivity).
      exact (Hfresh Hcl).
    + exfalso. injection Hm as _ _ _ Hm. by destruct added.
Defined.

(** C6, as stated, fails: after the call for [lote], [lote], [zona] has
    raised, the same call again skips both [lote] and adds [zona]. *)
Lemma C6_second_run_differs :
  let once := (ensure_table_and_columns lote_lote_zona initial_state).1 in
  let twice := (ensure_table_and_columns lote_lote_zona once).1 in
  columns (conn twice) <> columns (conn once).
Proof. apply (bool_decide_eq_false_1 _). vm_compute. reflexivity. Qed.

(** C6 (amended): a field that exists keeps its place, its declared type
    and its data whatever type the call passes, and repeating a call that
    succeeded changes nothing. *)
Theorem C6_existing_field_wins_and_success_is_idempotent cols s :
  let out := ensure_table_and_columns cols s in
  columns (conn s) `prefix_of` columns (conn out.1)
  /\ (forall c, c ∈ column_names (conn s) ->
        dict_get (columns (conn out.1)) c = dict_get (columns (conn s)) c)
  /\ records (conn out.1) = records (conn s)
  /\ (out.2 = Ok tt -> ensure_table_and_columns cols out.1 = (out.1, Ok tt)).
Proof.
  intros out.
  destruct (ensure_table_and_columns_spec cols s)
    as (added & Hc & _ & Hok & _ & Hr).
  fold out in Hc, Hok, Hr. repeat split.
  - rewrite Hc. by apply prefix_app_r.
  - intros c Hin. rewrite Hc. by apply dict_get_app_l.
  - done.
  - intros H. rewrite ensure_unfold. apply add_missing_all_present.
    intros c Hin. destruct (Hok H) as [_ Hall].
    by apply (proj1 (Forall_forall _ _) Hall).
Qed.

Lemma C6_witness :
  let cols := [(qtde, TEXT); (lit "zona", TEXT)] in
  let once := (ensure_table_and_columns cols initial_state).1 in
  dict_get (columns (conn once)) qtde = Some INTEGER
  /\ ensure_table_and_columns cols once = (once, Ok tt).
Proof.
  intros cols once.
  destruct (C6_existing_field_wins_and_success_is_idempotent cols initial_state)
    as (_ & Hty & _ & Hidem).
  split.
  - subst once. rewrite Hty; [reflexivity|].
    apply (bool_decide_eq_true_1 _). vm_compute. reflexivity.
  - apply Hidem. vm_compute. reflexivity.
Defined.

End Ensure.

(** ** Dictionaries *)

Section Dict.
Context {V : Type}.
Implicit Types (d : dict V) (k c : pystr) (v : V).

Lemma dict_set_key_elem d k v c :
  c ∈ map fst (dict_set d k v) <-> c = k \/ c ∈ map fst d.
Proof.
  induction d as [|[k' v'] d IH]; simpl.
  - rewrite list_elem_of_singleton. split; [by left|].
    intros [H|H]; [done|]. by apply elem_of_nil in H.
  - destruct (decide (k' = k)) as [->|Hne]; simpl.
    + rewrite elem_of_cons. tauto.
    + rewrite !elem_of_cons, IH. tauto.
Qed.

Lemma dict_set_NoDup d k v :
  NoDup (map fst d) -> NoDup (map fst (dict_set d k v)).
Proof.
  induction d as [|[k' v'] d IH]; simpl; intros Hnd.
  - apply NoDup_singleton.
  - apply NoDup_cons in Hnd as [Hhd Htl].
    destruct (decide (k' = k)) as [->|Hne]; simpl.
    + by apply NoDup_cons.
    + apply NoDup_cons. split; [|by apply IH].
      rewrite dict_set_key_elem. intros [H|H]; [congruence|done].
Qed.

Lemma dict_pop_key_elem d k c :
  c ∈ map fst (dict_pop d k) -> c ∈ map fst d.
Proof.
  induction d as [|[k' v'] d IH]; simpl; [done|].
  destruct (decide (k' = k)); simpl.
  - apply list_elem_of_further.
  - rewrite !elem_of_cons. intros [H|H]; [by left|right; by apply IH].
Qed.

Lemma dict_pop_removes d k :
  NoDup (map fst d) -> k ∉ map fst (dict_pop d k).
Proof.
  induction d as [|[k' v'] d IH]; simpl; intros Hnd.
  - apply not_elem_of_nil.
  - apply NoDup_cons in Hnd as [Hhd Htl].
    destruct (decide (k' = k)) as [->|Hne]; simpl; [done|].
    rewrite elem_of_cons. intros [H|H]; [congruence|by apply IH].
Qed.

Lemma dict_get_None_elem d k :
  dict_get d k = None <-> k ∉ map fst d.
Proof.
  induction d as [|[k' v'] d IH]; simpl.
  - split; [intros _; apply not_elem_of_nil|done].
  - destruct (decide (k' = k)) as [->|Hne].
    + split; [done|]. intros H. exfalso. apply H, list_elem_of_here.
    + rewrite IH, elem_of_cons. split; [intros H [?|?]; [congruence|done]|tauto].
Qed.

End Dict.

(** ** Stripping *)

Lemma lstrip_with_keeps P l c :
  P c = false -> lstrip_with P (l ++ [c]) <> [].
Proof.
  intros Hc. induction l as [|x l IH]; simpl.
  - by rewrite Hc.
  - destruct (P x); [done|discriminate].
Qed.

Lemma strip_with_head P c s :
  P c = false -> strip_with P (c :: s) <> [].
Proof.
  intros Hc. unfold strip_with. simpl lstrip_with. rewrite Hc.
  simpl rev. intros H.
  apply (f_equal (@rev N)) in H. rewrite rev_involutive in H. simpl in H.
  by apply (lstrip_with_keeps P (rev s) c).
Qed.

(** The decimal text of an integer is not blank. *)
Lemma strip_str_int z : strip (py_str (PInt z)) <> [].
Proof.
  unfold strip, py_str.
  destruct (Z.to_int z) as [d|d]; simpl.
  - destruct d; simpl; by apply strip_with_head.
  - by apply strip_with_head.
Qed.

Lemma row_has_value_int z : row_has_value (PInt z) = true.
Proof.
  unfold row_has_value. apply negb_true_iff, bool_decide_eq_false_2.
  apply strip_str_int.
Qed.

(** ** The values of a row *)

Section RowValues.
Variables (cols : list pystr) (row : list value).

Lemma collect_values_keys colmap values c :
  c ∈ map fst (collect_values cols row colmap values) ->
  c ∈ map fst values
  \/ exists orig, (orig, c) ∈ colmap
                  /\ row_has_value (row_get cols row orig) = true.
Proof.
  revert values. induction colmap as [|[orig norm] rest IH]; intros values; simpl.
  - by left.
  - assert (Hstep : forall vals',
              (forall c', c' ∈ map fst vals' -> c' = norm \/ c' ∈ map fst values) ->
              row_has_value (row_get cols row orig) = true ->
              c ∈ map fst (collect_values cols row rest vals') ->
              c ∈ map fst values
              \/ exists o, (o, c) ∈ (orig, norm) :: rest
                           /\ row_has_value (row_get cols row o) = true).
    { intros vals' Hk Hv Hc. destruct (IH _ Hc) as [Hin|(o & Ho & Hp)].
      - destruct (Hk _ Hin) as [->|?]; [right|by left].
        exists orig. split; [apply list_elem_of_here|done].
      - right. exists o. split; [by apply list_elem_of_further|done]. }
    assert (Hskip : c ∈ map fst (collect_values cols row rest values) ->
              c ∈ map fst values
              \/ exists o, (o, c) ∈ (orig, norm) :: rest
                           /\ row_has_value (row_get cols row o) = true).
    { intros Hc. destruct (IH _ Hc) as [?|(o & Ho & Hp)]; [by left|right].
      exists o. split; [by apply list_elem_of_further|done]. }
    destruct (row_get cols row orig) as [| |str|z] eqn:Hget; try done.
    + destruct (decide (strip str = [])) as [Hs|Hs]; [done|].
      apply Hstep.
      * intros c'. apply dict_set_key_elem.
      * simpl. by apply negb_true_iff, bool_decide_eq_false_2.
    + apply Hstep.
      * intros c'. apply dict_set_key_elem.
      * apply row_has_value_int.
Qed.

Lemma collect_values_NoDup colmap values :
  NoDup (map fst values) ->
  NoDup (map fst (collect_values cols row colmap values)).
Proof.
  revert values. induction colmap as [|[orig norm] rest IH]; intros values Hnd;
    simpl; [done|].
  destruct (row_get cols row orig); try by apply IH.
  - destruct (decide (strip s = [])); apply IH; [done|by apply dict_set_NoDup].
  - by apply IH, dict_set_NoDup.
Qed.

Lemma row_values_keys colmap c :
  c ∈ map fst (row_values cols row colmap) ->
  c <> codigo
  /\ exists orig, (orig, c) ∈ colmap
                  /\ row_has_value (row_get cols row orig) = true.
Proof.
  unfold row_values.
  pose proof (collect_values_NoDup colmap [] (NoDup_nil_2)) as Hnd.
  case_bool_decide as Hcod; intros Hc.
  - split.
    + intros ->. by apply (dict_pop_removes _ codigo Hnd).
    + apply dict_pop_key_elem in Hc.
      destruct (collect_values_keys _ _ _ Hc) as [H|H]; [|done].
      by apply elem_of_nil in H.
  - split.
    + intros ->. apply Hcod.
      destruct (dict_get (collect_values cols row colmap []) codigo) eqn:Hg; [by eexists|].
      by apply dict_get_None_elem in Hg.
    + destruct (collect_values_keys _ _ _ Hc) as [H|H]; [|done].
      by apply elem_of_nil in H.
Qed.

(** A row whose cells, the key apart, are all blank has no values. *)
Lemma row_values_blank colmap :
  (forall orig c, (orig, c) ∈ colmap -> c <> codigo ->
                  row_has_value (row_get cols row orig) = false) ->
  row_values cols row colmap = [].
Proof.
  intros Hblank.
  destruct (row_values cols row colmap) as [|[c v] rest] eqn:Hv; [done|].
  destruct (row_values_keys colmap c) as (Hne & orig & Hin & Hp).
  - rewrite Hv. simpl. apply list_elem_of_here.
  - rewrite (Hblank orig c Hin Hne) in Hp. discriminate.
Qed.

End RowValues.

(** ** SQL statements *)

Lemma Forall2_map_same {A} (P : A -> A -> Prop) (f : A -> A) (l : list A) :
  (forall x, P x (f x)) -> Forall2 P l (map f l).
Proof. intros H. induction l; simpl; constructor; auto. Qed.

Lemma zip_fst_elem {A B} (l1 : list A) (l2 : list B) (x : A) :
  x ∈ map fst (zip l1 l2) -> x ∈ l1.
Proof.
  revert l2. induction l1 as [|a l1 IH]; intros [|b l2]; simpl; try done.
  - intros H. by apply elem_of_nil in H.
  - rewrite !elem_of_cons. intros [?|?]; [by left|right; eauto].
Qed.

Lemma foldl_assign_lookup (r : gmap pystr value) (l : dict value) (c : pystr) :
  c ∉ map fst l -> foldl assign r l !! c = r !! c.
Proof.
  revert r. induction l as [|[k v] l IH]; intros r Hc; simpl; [done|].
  simpl in Hc. rewrite not_elem_of_cons in Hc. destruct Hc as [Hne Hc].
  rewrite IH by done. unfold assign. simpl. by rewrite lookup_insert_ne.
Qed.

Lemma foldl_assign_first (r : gmap pystr value) (l : dict value) (c : pystr) (v : value) :
  c ∉ map fst l -> foldl assign r ((c, v) :: l) !! c = Some v.
Proof.
  intros Hc. simpl. rewrite foldl_assign_lookup by done.
  unfold assign. simpl. apply lookup_insert_eq.
Qed.

Lemma mbind_ret_fst {A B} (m : M A) (b : B) (s : state) :
  (mbind m (fun _ => ret b) s).1 = (m s).1.
Proof. unfold mbind, ret. by destruct (m s) as [s' [a|e]]. Qed.

(** An [UPDATE] keeps the columns and the messages, leaves the rows that do
    not match the key as they are, and writes no column outside [SET]. *)
Lemma execute_update_spec set_parts params s :
  let out := execute_update set_parts params s in
  columns (conn out.1) = columns (conn s)
  /\ shown out.1 = shown s
  /\ (out.1 = s \/ out.2 = Ok tt /\ pk_unique (records (conn out.1)) = true)
  /\ Forall2 (fun r0 r1 =>
                (row_matches (default PNone (last params)) r0 = false -> r1 = r0)
                /\ forall c, c ∉ set_parts -> r1 !! c = r0 !! c)
             (records (conn s)) (records (conn out.1)).
Proof.
  assert (Hrefl : forall l : list (gmap pystr value),
            Forall2 (fun r0 r1 =>
                (row_matches (default PNone (last params)) r0 = false -> r1 = r0)
                /\ forall c, c ∉ set_parts -> r1 !! c = r0 !! c) l l).
  { intros l. induction l; constructor; auto. }
  unfold execute_update.
  destruct (known_columns (conn s) set_parts); simpl; [|by auto].
  destruct (length params =? S (length set_parts))%nat; simpl; [|by auto].
  destruct (pk_unique _) eqn:Hpk; simpl; [|by auto].
  repeat split; [by right|].
  apply Forall2_map_same. intros r. split.
  - by intros ->.
  - intros c Hc. destruct (row_matches _ r); [|done].
    apply foldl_assign_lookup. intros H. by apply Hc, (zip_fst_elem _ params).
Qed.

(** An [INSERT] either fails and changes nothing, or appends one row. *)
Lemma execute_insert_spec insert_cols insert_vals s :
  let out := execute_insert insert_cols insert_vals s in
  columns (conn out.1) = columns (conn s)
  /\ shown out.1 = shown s
  /\ (out.1 = s
      \/ out.2 = Ok tt
         /\ records (conn out.1)
            = records (conn s) ++ [foldl assign ∅ (zip insert_cols insert_vals)]
         /\ pk_unique (records (conn out.1)) = true).
Proof.
  unfold execute_insert.
  destruct (known_columns (conn s) insert_cols); simpl; [|by auto].
  destruct (length insert_vals =? length insert_cols)%nat; simpl; [|by auto].
  destruct (pk_unique _) eqn:Hpk; simpl; [|by auto].
  repeat split. right. by rewrite Hpk.
Qed.

(** ** One row of the import *)

Lemma update_parts_columns db_cols items set_parts params c :
  c ∈ (update_parts db_cols items set_parts params).1 ->
  c ∈ set_parts \/ c ∈ map fst items.
Proof.
  revert set_parts params.
  induction items as [|[colname val] rest IH]; intros set_parts params; simpl.
  - by left.
  - assert (Hgrow : forall ps,
              c ∈ (update_parts db_cols rest (set_parts ++ [colname]) ps).1 ->
              c ∈ set_parts \/ c ∈ colname :: map fst rest).
    { intros ps H. destruct (IH _ _ H) as [Hin|Hin].
      - apply elem_of_app in Hin as [?|Hin]; [by left|right].
        apply list_elem_of_singleton in Hin as ->. apply list_elem_of_here.
      - right. by apply list_elem_of_further. }
    destruct (bool_decide (colname ∈ db_cols)); simpl.
    + destruct (decide (colname = qtde)); [|by apply Hgrow].
      destruct (int_float val); by apply Hgrow.
    + intros H. destruct (IH _ _ H) as [?|?]; [by left|right].
      by apply list_elem_of_further.
Qed.

Lemma insert_parts_columns db_cols items insert_cols insert_vals :
  exists cs vs,
    insert_parts db_cols items insert_cols insert_vals
    = (insert_cols ++ cs, insert_vals ++ vs)
    /\ forall c, c ∈ cs -> c ∈ map fst items.
Proof.
  revert insert_cols insert_vals.
  induction items as [|[colname val] rest IH]; intros ic iv; simpl.
  - exists [], []. rewrite !app_nil_r. split; [done|].
    intros c H. by apply elem_of_nil in H.
  - assert (Hgrow : forall v,
              exists cs vs,
                insert_parts db_cols rest (ic ++ [colname]) (iv ++ [v])
                = (ic ++ cs, iv ++ vs)
                /\ forall c, c ∈ cs -> c ∈ colname :: map fst rest).
    { intros v. destruct (IH (ic ++ [colname]) (iv ++ [v])) as (cs & vs & -> & Hin).
      exists (colname :: cs), (v :: vs). rewrite <- !app_assoc. split; [done|].
      intros c. rewrite !elem_of_cons. intros [?|?]; [by left|right; auto]. }
    destruct (bool_decide (colname ∈ db_cols)); simpl.
    + destruct (decide (colname = qtde)); apply Hgrow.
    + destruct (IH ic iv) as (cs & vs & -> & Hin).
      exists cs, vs. split; [done|]. intros c Hc.
      by apply list_elem_of_further, Hin.
Qed.

Lemma select_codigo_bind {B} (k : value) (f : bool -> M B) (s : state) :
  mbind (select_codigo k) f s
  = f (existsb (row_matches k) (records (conn s))) s.
Proof. reflexivity. Qed.

(** What one row does to the state: nothing, an [UPDATE] of columns the
    row has values for, or an [INSERT] of a key that was not there. *)
Lemma process_row_cases cols colmap codigo_col db_cols row cnt s :
  let out := process_row cols colmap codigo_col db_cols row cnt s in
  let k := strip (py_str (row_get cols row codigo_col)) in
  out.1 = s
  \/ (exists set_parts params,
        out.1 = (execute_update set_parts params s).1
        /\ last params = Some (PStr k)
        /\ forall c, c ∈ set_parts -> c ∈ map fst (row_values cols row colmap))
  \/ (exists cs vs,
        out.1 = (execute_insert (codigo :: cs) (PStr k :: vs) s).1
        /\ (codigo ∉ cs)
        /\ existsb (row_matches (PStr k)) (records (conn s)) = false).
Proof.
  intros out k. subst out. unfold process_row.
  destruct cnt as [[inserted updated] ignored].
  destruct (is_missing _ || bool_decide _); [by left|].
  fold k. rewrite select_codigo_bind.
  destruct (existsb _ _) eqn:Hex.
  - destruct (is_empty (row_values cols row colmap)); [by left|].
    destruct (update_parts db_cols (row_values cols row colmap) [] [])
      as [set_parts params] eqn:Hup.
    destruct (is_empty set_parts); [by left|].
    right. left. exists set_parts, (params ++ [PStr k]).
    rewrite mbind_ret_fst. split; [done|]. split; [apply last_snoc|].
    intros c Hc.
    destruct (update_parts_columns db_cols (row_values cols row colmap) [] [] c)
      as [H|H]; [by rewrite Hup| |done].
    by apply elem_of_nil in H.
  - destruct (insert_parts_columns db_cols (row_values cols row colmap)
                [codigo] [PStr k]) as (cs & vs & -> & Hin).
    right. right. exists cs, vs. rewrite mbind_ret_fst.
    split; [done|]. split; [|done]. intros Hc.
    by destruct (row_values_keys cols row colmap codigo (Hin _ Hc)).
Qed.

(** ** Non-destructive merge *)

(** C1 (code defect): a row for a stored key whose only cell besides the
    key is a quantity that does not parse has, once that quantity is
    dropped, an empty change-set, and is to be counted as skipped like the
    row with a blank quantity.  The code appends the [SET] entry before it
    parses (line 206), so the [UPDATE] of line 222 has a placeholder
    without a parameter: the import raises [ProgrammingError] and returns
    no counters. *)
Theorem C1_row_with_only_a_bad_quantity_is_not_skipped :
  int_float (txt "abc") = Raise ValueError
  /\ import_excel_inteligente
       (sheet ["codigo"; "produto"; "qtde"]%string [[txt "A1"; PNaN; txt "  "]])
       stocked
     = (stocked, Ok (0, 0, 1)%nat)
  /\ import_excel_inteligente
       (sheet ["codigo"; "produto"; "qtde"]%string [[txt "A1"; PNaN; txt "abc"]])
       stocked
     = (stocked, Raise ProgrammingError).
Proof. vm_compute. repeat split; reflexivity. Qed.

(** X19: for headers that are distinct after stripping, a row whose key is
    in the store changes no column, leaves every other record as it is,
    never writes the key, and writes no field for which all its cells are
    blank ([None], NaN or empty after trimming); when all its cells but
    the key are blank it is counted as ignored and the store is
    unchanged. *)
Theorem X19_existing_key_row_writes_only_present_fields
    cols colmap codigo_col db_cols row cnt s :
  let codigo_val := row_get cols row codigo_col in
  let k := strip (py_str codigo_val) in
  let out := process_row cols colmap codigo_col db_cols row cnt s in
  NoDup cols ->
  is_missing codigo_val = false -> k <> [] ->
  existsb (row_matches (PStr k)) (records (conn s)) = true ->
  columns (conn out.1) = columns (conn s)
  /\ Forall2 (fun r0 r1 =>
                (row_matches (PStr k) r0 = false -> r1 = r0)
                /\ r1 !! codigo = r0 !! codigo
                /\ forall c,
                     (forall orig, (orig, c) ∈ colmap ->
                                   row_has_value (row_get cols row orig) = false) ->
                     r1 !! c = r0 !! c)
             (records (conn s)) (records (conn out.1))
  /\ ((forall orig c, (orig, c) ∈ colmap -> c <> codigo ->
                      row_has_value (row_get cols row orig) = false) ->
      out = (s, Ok (cnt.1.1, cnt.1.2, S cnt.2))).
Proof.
  intros codigo_val k out _ Hkey Hk Hex.
  split; [|split].
  - destruct (process_row_cases cols colmap codigo_col db_cols row cnt s)
      as [Hs|[(sp & ps & Hs & _)|(cs & vs & Hs & _)]]; fold out in Hs; rewrite Hs.
    + done.
    + apply execute_update_spec.
    + apply execute_insert_spec.
  - destruct (process_row_cases cols colmap codigo_col db_cols row cnt s)
      as [Hs|[(sp & ps & Hs & Hlast & Hsp)|(cs & vs & _ & _ & Hno)]].
    + fold out in Hs. rewrite Hs. apply Forall_Forall2_diag, Forall_forall. auto.
    + fold out in Hs. fold codigo_val k in Hlast. rewrite Hs.
      destruct (execute_update_spec sp ps s) as (_ & _ & _ & Hframe).
      rewrite Hlast in Hframe. simpl in Hframe.
      eapply Forall2_impl; [exact Hframe|].
      intros r0 r1 [Hother Hcols]. split; [done|]. split.
      * apply Hcols. intros Hin.
        by destruct (row_values_keys cols row colmap codigo (Hsp _ Hin)).
      * intros c Hblank. apply Hcols. intros Hin.
        destruct (row_values_keys cols row colmap c (Hsp _ Hin))
          as (_ & orig & Ho & Hp).
        rewrite (Hblank orig Ho) in Hp. discriminate.
    + fold codigo_val k in Hno. congruence.
  - intros Hblank. subst out. unfold process_row.
    destruct cnt as [[inserted updated] ignored].
    fold codigo_val. rewrite Hkey. fold k.
    rewrite bool_decide_eq_false_2 by done.
    change (false || false) with false. cbv iota.
    rewrite select_codigo_bind, Hex.
    by rewrite (row_values_blank cols row colmap Hblank).
Qed.

Lemma X19_witness :
  import_excel_inteligente
    (sheet ["codigo"; "produto"; "qtde"]%string [[txt "A1"; PNaN; txt "  "]])
    stocked
  = (stocked, Ok (0, 0, 1)%nat).
Proof.
  pose (cols := map lit ["codigo"; "produto"; "qtde"]%string).
  pose (colmap := [(codigo, codigo); (produto, produto); (qtde, qtde)]).
  destruct (X19_existing_key_row_writes_only_present_fields
              cols colmap codigo (column_names (conn stocked))
              [txt "A1"; PNaN; txt "  "] (0, 0, 0)%nat stocked)
    as (_ & _ & Hskip);
    [apply (bool_decide_eq_true_1 _); vm_compute; reflexivity
    |reflexivity|discriminate|reflexivity|].
  change (process_row cols colmap codigo (column_names (conn stocked))
            [txt "A1"; PNaN; txt "  "] (0, 0, 0)%nat stocked
          = (stocked, Ok (0, 0, 1)%nat)).
  apply Hskip. intros orig c Hin Hne.
  subst colmap. rewrite !elem_of_cons in Hin.
  destruct Hin as [Hin|[Hin|[Hin|Hin]]].
  - injection Hin as -> ->. exfalso. apply Hne. reflexivity.
  - injection Hin as -> ->. reflexivity.
  - injection Hin as -> ->. reflexivity.
  - apply elem_of_nil in Hin. destruct Hin.
Defined.

(** ** The update primitive and unknown fields *)

Lemma single_parts_columns db_cols updates set_parts params c :
  c ∈ (single_parts db_cols updates set_parts params).1 ->
  c ∈ set_parts \/ (c ∈ map fst updates /\ c ∈ db_cols).
Proof.
  revert set_parts params.
  induction updates as [|[col val] rest IH]; intros set_parts params; simpl.
  - by left.
  - case_bool_decide as Hin; simpl; intros H; destruct (IH _ _ H) as [Hc|[Hc Hd]].
    + apply elem_of_app in Hc as [?|Hc]; [by left|right].
      apply list_elem_of_singleton in Hc as ->. split; [apply list_elem_of_here|done].
    + right. split; [by apply list_elem_of_further|done].
    + by left.
    + right. split; [by apply list_elem_of_further|done].
Qed.

Lemma get_table_columns_bind {B} (f : list pystr -> M B) (s : state) :
  mbind get_table_columns f s = f (column_names (conn s)) s.
Proof. reflexivity. Qed.

Lemma update_single_record_cases cod updates s :
  let out := update_single_record cod updates s in
  out = (s, Ok false)
  \/ exists set_parts params,
       out.1 = (execute_update set_parts params s).1
       /\ set_parts <> []
       /\ forall c, c ∈ set_parts ->
                    c ∈ map fst updates /\ c ∈ column_names (conn s).
Proof.
  intros out. subst out. unfold update_single_record.
  destruct (is_empty updates); [by left|].
  rewrite get_table_columns_bind.
  destruct (single_parts (column_names (conn s)) updates [] [])
    as [set_parts params] eqn:Hsp.
  destruct set_parts as [|c0 set_parts]; [by left|].
  change (is_empty (c0 :: set_parts)) with false. cbv iota.
  right. exists (c0 :: set_parts), (params ++ [PStr cod]).
  rewrite mbind_ret_fst. split; [done|]. split; [done|].
  intros c Hc.
  destruct (single_parts_columns (column_names (conn s)) updates [] [] c)
    as [H|H]; [by rewrite Hsp| |done].
  by apply elem_of_nil in H.
Qed.

Lemma process_row_columns cols colmap codigo_col db_cols row cnt s :
  columns (conn (process_row cols colmap codigo_col db_cols row cnt s).1)
  = columns (conn s).
Proof.
  destruct (process_row_cases cols colmap codigo_col db_cols row cnt s)
    as [Hs|[(sp & ps & Hs & _)|(cs & vs & Hs & _)]]; rewrite Hs.
  - done.
  - apply execute_update_spec.
  - apply execute_insert_spec.
Qed.

(** C9, as stated, fails: asked to write the unknown field [zona] and the
    field [produto], the primitive reports success and writes [produto]. *)
Lemma C9_unknown_field_is_not_rejected :
  (lit "zona" ∉ column_names (conn stocked))
  /\ ~ rejected stocked
        (update_single_record (lit "A1")
           [(lit "zona", txt "Z9"); (produto, txt "Nut")] stocked).
Proof.
  split.
  - apply (bool_decide_eq_false_1 _). vm_compute. reflexivity.
  - intros [H _]. apply H. vm_compute. reflexivity.
Qed.

(** The update primitive adds no column, gives no record a value for a
    field outside the schema, and returns [False] without a change when no
    named field is in the schema; a row of the import adds no column
    either. *)
Lemma update_single_record_frame cod updates s :
  let out := update_single_record cod updates s in
  columns (conn out.1) = columns (conn s)
  /\ Forall2 (fun r0 r1 =>
                forall c, c ∉ column_names (conn s) -> r1 !! c = r0 !! c)
             (records (conn s)) (records (conn out.1))
  /\ (Forall (fun c => c ∉ column_names (conn s)) (map fst updates) ->
      out = (s, Ok false))
  /\ (forall cols colmap codigo_col db_cols row cnt,
        columns (conn (process_row cols colmap codigo_col db_cols row cnt s).1)
        = columns (conn s)).
Proof.
  intros out.
  destruct (update_single_record_cases cod updates s)
    as [Hs|(sp & ps & Hs & Hne & Hsp)]; fold out in Hs.
  - rewrite Hs. simpl. repeat split; try done.
    + apply Forall_Forall2_diag, Forall_forall. auto.
    + intros. apply process_row_columns.
  - destruct (execute_update_spec sp ps s) as (Hc & _ & _ & Hframe).
    rewrite Hs. repeat split.
    + done.
    + eapply Forall2_impl; [exact Hframe|].
      intros r0 r1 [_ Hcols] c Hc'. apply Hcols. intros Hin.
      by destruct (Hsp _ Hin).
    + intros Hall. exfalso.
      destruct sp as [|c sp]; [done|].
      destruct (Hsp c (list_elem_of_here _ _)) as [Hu Hk].
      by apply (proj1 (Forall_forall _ _) Hall c Hu).
    + intros. apply process_row_columns.
Qed.

(** ** Keys *)

Section Keys.

Lemma keeps_keys_refl s : keeps_keys s s.
Proof. split; [done|]. reflexivity. Qed.

Lemma keeps_keys_trans s1 s2 s3 :
  keeps_keys s1 s2 -> keeps_keys s2 s3 -> keeps_keys s1 s3.
Proof.
  intros [Hw1 Hp1] [Hw2 Hp2]. split; [auto|].
  by transitivity (keys (conn s2)).
Qed.

Lemma keeps_keys_same_records s s' :
  records (conn s') = records (conn s) -> keeps_keys s s'.
Proof.
  intros H. unfold keeps_keys, well_keyed, keys. rewrite H.
  split; [done|]. reflexivity.
Qed.

Lemma key_preserving_ret {A} (a : A) : key_preserving (ret a).
Proof. intros s. apply keeps_keys_refl. Qed.

Lemma key_preserving_lift {A} (r : res A) : key_preserving (lift r).
Proof. intros s. apply keeps_keys_refl. Qed.

Lemma key_preserving_bind {A B} (m : M A) (f : A -> M B) :
  key_preserving m -> (forall a, key_preserving (f a)) ->
  key_preserving (mbind m f).
Proof.
  intros Hm Hf s. unfold mbind. specialize (Hm s).
  destruct (m s) as [s' [a|e]]; simpl in *; [|done].
  eapply keeps_keys_trans; [exact Hm|apply Hf].
Qed.

Lemma key_preserving_st_show msg : key_preserving (st_show msg).
Proof. intros s. by apply keeps_keys_same_records. Qed.

Lemma key_preserving_select k : key_preserving (select_codigo k).
Proof. intros s. apply keeps_keys_refl. Qed.

Lemma key_preserving_get_table_columns : key_preserving get_table_columns.
Proof. intros s. apply keeps_keys_refl. Qed.

Lemma key_preserving_ensure cols : key_preserving (ensure_table_and_columns cols).
Proof.
  intros s. apply keeps_keys_same_records.
  by destruct (ensure_table_and_columns_spec cols s) as (? & _ & _ & _ & _ & ?).
Qed.

(** With text keys everywhere, the keys are the primary-key values. *)
Lemma keys_pk_values (recs : list (gmap pystr value)) :
  Forall (fun r => exists k, r !! codigo = Some (PStr k)) recs ->
  map (fun r => r !! codigo) recs = map Some (pk_values recs).
Proof.
  induction 1 as [|r recs [k Hk] _ IH]; [done|].
  unfold pk_values in *. simpl. rewrite Hk. simpl. by rewrite IH.
Qed.

Lemma well_keyed_intro (t : table) :
  Forall (fun r => exists k, r !! codigo = Some (PStr k)) (records t) ->
  pk_unique (records t) = true ->
  well_keyed t.
Proof.
  intros Hall Hpk. split; [done|]. unfold keys.
  rewrite keys_pk_values by done.
  apply (NoDup_fmap_2 Some). by apply bool_decide_eq_true_1 in Hpk.
Qed.

Lemma Forall2_same_key (l l' : list (gmap pystr value)) :
  Forall2 (fun r0 r1 => r1 !! codigo = r0 !! codigo) l l' ->
  map (fun r => r !! codigo) l' = map (fun r => r !! codigo) l.
Proof. induction 1 as [|???? H _ IH]; simpl; [done|]. by rewrite H, IH. Qed.

(** An [UPDATE] that does not set the key column keeps every key. *)
Lemma key_preserving_update set_parts params :
  codigo ∉ set_parts -> key_preserving (execute_update set_parts params).
Proof.
  intros Hno s.
  destruct (execute_update_spec set_parts params s) as (_ & _ & _ & Hframe).
  assert (Hk : keys (conn (execute_update set_parts params s).1) = keys (conn s)).
  { apply Forall2_same_key. eapply Forall2_impl; [exact Hframe|].
    intros r0 r1 [_ H]. by apply H. }
  split.
  - intros [Hall Hnd]. split; [|by rewrite Hk].
    eapply Forall2_Forall_r; [exact Hframe|].
    eapply Forall_impl; [exact Hall|].
    intros r0 [k Hr0] r1 [_ H]. exists k. rewrite <- Hr0. by apply H.
  - rewrite Hk. reflexivity.
Qed.

(** An [INSERT] whose first column is the key, bound to a text, appends a
    row with that key. *)
Lemma key_preserving_insert cs vs k :
  codigo ∉ cs -> key_preserving (execute_insert (codigo :: cs) (PStr k :: vs)).
Proof.
  intros Hno s.
  destruct (execute_insert_spec (codigo :: cs) (PStr k :: vs) s)
    as (_ & _ & [Hs|(_ & Hrec & Hpk)]).
  - rewrite Hs. apply keeps_keys_refl.
  - assert (Hnew : foldl assign ∅ (zip (codigo :: cs) (PStr k :: vs)) !! codigo
                   = Some (PStr k)).
    { apply foldl_assign_first. intros H. by apply Hno, (zip_fst_elem _ vs). }
    split.
    + intros [Hall _]. apply well_keyed_intro; [|done].
      rewrite Hrec. apply Forall_app. split; [done|].
      apply Forall_singleton. by exists k.
    + unfold keys. rewrite Hrec, map_app. by eexists.
Qed.

Lemma key_preserving_process_row cols colmap codigo_col db_cols row cnt :
  key_preserving (process_row cols colmap codigo_col db_cols row cnt).
Proof.
  intros s.
  destruct (process_row_cases cols colmap codigo_col db_cols row cnt s)
    as [Hs|[(sp & ps & Hs & _ & Hsp)|(cs & vs & Hs & Hno & _)]]; rewrite Hs.
  - apply keeps_keys_refl.
  - apply key_preserving_update. intros Hin.
    by destruct (row_values_keys cols row colmap codigo (Hsp _ Hin)).
  - by apply key_preserving_insert.
Qed.

Lemma key_preserving_process_rows cols colmap codigo_col db_cols rows cnt :
  key_preserving (process_rows cols colmap codigo_col db_cols rows cnt).
Proof.
  revert cnt. induction rows as [|row rest IH]; intros cnt; simpl.
  - apply key_preserving_ret.
  - apply key_preserving_bind; [apply key_preserving_process_row|].
    intros cnt'. apply IH.
Qed.

Lemma key_preserving_import df : key_preserving (import_excel_inteligente df).
Proof.
  unfold import_excel_inteligente.
  apply key_preserving_bind; [apply key_preserving_lift|]. intros colmap.
  destruct (codigo_cols colmap) as [|codigo_col ?].
  - apply key_preserving_bind; [apply key_preserving_st_show|].
    intros _. apply key_preserving_ret.
  - apply key_preserving_bind; [apply key_preserving_ensure|]. intros _.
    apply key_preserving_bind; [apply key_preserving_get_table_columns|].
    intros db_cols. apply key_preserving_process_rows.
Qed.

Lemma key_preserving_update_single_record cod updates :
  codigo ∉ map fst updates ->
  key_preserving (update_single_record cod updates).
Proof.
  intros Hno s.
  destruct (update_single_record_cases cod updates s)
    as [Hs|(sp & ps & Hs & _ & Hsp)]; rewrite Hs.
  - apply keeps_keys_refl.
  - apply key_preserving_update. intros Hin. by destruct (Hsp _ Hin).
Qed.

Lemma set_if_filled_keys updates k x c :
  c ∈ map fst (set_if_filled updates k x) -> c = k \/ c ∈ map fst updates.
Proof.
  unfold set_if_filled. destruct (is_empty x); [by right|].
  apply dict_set_key_elem.
Qed.

Lemma filled_updates_no_key f : codigo ∉ map fst (filled_updates f).
Proof.
  unfold filled_updates. intros H.
  apply dict_set_key_elem in H as [H|H]; [discriminate|].
  repeat (apply set_if_filled_keys in H as [H|H]; [discriminate|]).
  by apply elem_of_nil in H.
Qed.

Lemma key_preserving_cadastrar f : key_preserving (cadastrar_manualmente f).
Proof.
  unfold cadastrar_manualmente.
  destruct (is_empty (strip (codigo_in f))); [apply key_preserving_st_show|].
  destruct (negb (is_empty (strip (other_label f)))).
  - rewrite normalize_colname_raises. intros s. apply keeps_keys_refl.
  - apply key_preserving_bind; [apply key_preserving_select|]. intros [|].
    + apply key_preserving_bind; [|intros _; apply key_preserving_st_show].
      apply key_preserving_update_single_record, filled_updates_no_key.
    + apply key_preserving_bind; [apply key_preserving_ensure|]. intros _.
      apply key_preserving_bind; [|intros _; apply key_preserving_st_show].
      apply key_preserving_insert.
      apply (bool_decide_eq_false_1 _). vm_compute. reflexivity.
Qed.

Lemma key_preserving_atualizar f : key_preserving (atualizar_registro f).
Proof.
  unfold atualizar_registro.
  apply key_preserving_bind; [|intros _; apply key_preserving_st_show].
  apply key_preserving_update_single_record.
  apply (bool_decide_eq_false_1 _). vm_compute. reflexivity.
Qed.

Lemma keeps_keys_run_action a s : keeps_keys s (run_action a s).
Proof.
  destruct a; simpl.
  - apply key_preserving_import.
  - apply key_preserving_cadastrar.
  - apply key_preserving_atualizar.
Qed.

Lemma keeps_keys_run_actions l s : keeps_keys s (run_actions l s).
Proof.
  revert s. induction l as [|a l IH]; intros s; simpl.
  - apply keeps_keys_refl.
  - eapply keeps_keys_trans; [apply keeps_keys_run_action|apply IH].
Qed.

(** The import never names the key column in an [UPDATE]. *)
Lemma import_update_excludes_key cols row colmap db_cols :
  (codigo ∉ map fst (row_values cols row colmap))
  /\ (codigo ∉ (update_parts db_cols (row_values cols row colmap) [] []).1).
Proof.
  assert (H : codigo ∉ map fst (row_values cols row colmap)).
  { intros Hin. by destruct (row_values_keys cols row colmap codigo Hin). }
  split; [done|]. intros Hin.
  apply update_parts_columns in Hin as [Hin|Hin]; [|done].
  by apply elem_of_nil in Hin.
Qed.

(** C7: after any sequence of imports, manual registrations and edits of a
    store whose records have distinct text keys, every record still has a
    text key, no two records share one, and the records that were there
    keep their place and key (new records are appended); the values the
    import passes to an update never include the key field. *)
Theorem C7_keys_stay_unique_and_fixed (l : list action) (s : state) :
  well_keyed (conn s) ->
  well_keyed (conn (run_actions l s))
  /\ keys (conn s) `prefix_of` keys (conn (run_actions l s))
  /\ (forall cols row colmap db_cols,
        (codigo ∉ map fst (row_values cols row colmap))
        /\ (codigo ∉ (update_parts db_cols (row_values cols row colmap) [] []).1)).
Proof.
  intros Hw. destruct (keeps_keys_run_actions l s) as [H1 H2].
  split; [by apply H1|]. split; [done|].
  intros. apply import_update_excludes_key.
Qed.

Lemma C7_witness :
  well_keyed
    (conn (run_actions
             [ Importar (sheet ["codigo"; "qtde"]%string
                               [[txt "B7"; txt "5"]; [txt "B7"; txt "8"]]);
               Atualizar {| ed_codigo := lit "B7"; produto_inp := lit "Nut";
                            categoria_inp := []; rua_inp := []; nivel_inp := [];
                            predio_inp := []; qtde_inp := 3 |} ]
             initial_state)).
Proof.
  apply C7_keys_stay_unique_and_fixed.
  split; [apply Forall_nil_2|apply NoDup_nil_2].
Defined.

End Keys.

(** ** What holds of an import that runs to its end *)

Section Completed.

Lemma process_row_counts cols colmap codigo_col db_cols row cnt s s' cnt' :
  process_row cols colmap codigo_col db_cols row cnt s = (s', Ok cnt') ->
  total cnt' = S (total cnt).
Proof.
  unfold process_row. destruct cnt as [[inserted updated] ignored].
  unfold total. simpl.
  destruct (is_missing _ || bool_decide _).
  { unfold ret. intros [= _ <-]. simpl. lia. }
  rewrite select_codigo_bind.
  destruct (existsb _ _).
  - destruct (is_empty (row_values cols row colmap)).
    { unfold ret. intros [= _ <-]. simpl. lia. }
    destruct (update_parts _ _ _ _) as [sp ps].
    destruct (is_empty sp).
    { unfold ret. intros [= _ <-]. simpl. lia. }
    unfold mbind, ret. destruct (execute_update _ _ s) as [s1 [[]|e]]; [|done].
    intros [= _ <-]. simpl. lia.
  - destruct (insert_parts _ _ _ _) as [ic iv].
    unfold mbind, ret. destruct (execute_insert _ _ s) as [s1 [[]|e]]; [|done].
    intros [= _ <-]. simpl. lia.
Qed.

Lemma process_rows_counts cols colmap codigo_col db_cols rows cnt s s' cnt' :
  process_rows cols colmap codigo_col db_cols rows cnt s = (s', Ok cnt') ->
  total cnt' = (total cnt + length rows)%nat.
Proof.
  revert cnt s. induction rows as [|row rest IH]; intros cnt s; simpl.
  - unfold ret. intros [= _ <-]. lia.
  - unfold mbind.
    destruct (process_row _ _ _ _ row cnt s) as [s1 [cnt1|e]] eqn:Hrow; [|done].
    intros H. apply IH in H. apply process_row_counts in Hrow. lia.
Qed.

(** When the import of a sheet with a key column returns, its counters add
    up to the number of rows. *)
Lemma import_counts_add_up df colmap s s' cnt :
  build_colmap (map strip (df_columns df)) [] = Ok colmap ->
  codigo_cols colmap <> [] ->
  import_excel_inteligente df s = (s', Ok cnt) ->
  total cnt = length (df_rows df).
Proof.
  intros Hmap Hkey. unfold import_excel_inteligente. rewrite Hmap.
  unfold mbind at 1, lift.
  destruct (codigo_cols colmap) as [|codigo_col ?]; [done|].
  unfold mbind at 1.
  destruct (ensure_table_and_columns _ s) as [s1 [[]|e]]; [|done].
  rewrite get_table_columns_bind. intros H.
  by apply process_rows_counts in H.
Qed.

(** Without a key column, the import either shows the message of line 141
    and returns zeros, or raises while mapping the headers; the table is
    untouched both ways. *)
Lemma import_without_key_column df s :
  match build_colmap (map strip (df_columns df)) [] with
  | Ok colmap =>
      codigo_cols colmap = [] ->
      import_excel_inteligente df s
      = ({| conn := conn s; shown := shown s ++ [ErrorPlanilhaSemCodigo] |},
         Ok (0, 0, 0)%nat)
  | Raise e => import_excel_inteligente df s = (s, Raise e)
  end.
Proof.
  unfold import_excel_inteligente.
  destruct (build_colmap _ _) as [colmap|e]; [|done].
  intros Hno. unfold mbind at 1, lift. by rewrite Hno.
Qed.

End Completed.

(** ** The unparseable quantity on the update path, in general *)

Section BadQuantity.

Lemma update_parts_lengths db_cols items set_parts params :
  let res := update_parts db_cols items set_parts params in
  (length res.2 + length set_parts <= length res.1 + length params)%nat
  /\ ((exists v e, (qtde, v) ∈ items /\ int_float v = Raise e)
      -> qtde ∈ db_cols
      -> (length res.2 + length set_parts < length res.1 + length params)%nat).
Proof.
  revert set_parts params.
  induction items as [|[colname val] rest IH]; intros sp ps; simpl.
  - split; [lia|]. intros (v & e & Hin & _). by apply elem_of_nil in Hin.
  - case_bool_decide as Hdb; simpl.
    + destruct (decide (colname = qtde)) as [->|Hne].
      * destruct (int_float val) as [z|e] eqn:Hval.
        -- destruct (IH (sp ++ [qtde]) (ps ++ [PInt z])) as [Hle Hlt].
           rewrite !length_app in Hle, Hlt. simpl in Hle, Hlt.
           split; [lia|].
           intros (v & e & Hin & Hv) Hq.
           apply elem_of_cons in Hin as [[= <-]|Hin]; [congruence|].
           assert (Hex : exists v e, (qtde, v) ∈ rest /\ int_float v = Raise e)
             by eauto.
           specialize (Hlt Hex Hq). lia.
        -- destruct (IH (sp ++ [qtde]) ps) as [Hle _].
           rewrite !length_app in Hle. simpl in Hle.
           split; intros; lia.
      * destruct (IH (sp ++ [colname]) (ps ++ [val])) as [Hle Hlt].
        rewrite !length_app in Hle, Hlt. simpl in Hle, Hlt.
        split; [lia|].
        intros (v & e & Hin & Hv) Hq.
        apply elem_of_cons in Hin as [[= ? ?]|Hin]; [congruence|].
        assert (Hex : exists v e, (qtde, v) ∈ rest /\ int_float v = Raise e)
          by eauto.
        specialize (Hlt Hex Hq). lia.
    + destruct (IH sp ps) as [Hle Hlt]. split; [done|].
      intros (v & e & Hin & Hv) Hq.
      apply elem_of_cons in Hin as [[= ? ?]|Hin]; [congruence|].
      apply Hlt; eauto.
Qed.

Lemma update_parts_known db_cols items set_parts params c :
  c ∈ (update_parts db_cols items set_parts params).1 ->
  c ∈ set_parts \/ c ∈ db_cols.
Proof.
  revert set_parts params.
  induction items as [|[colname val] rest IH]; intros sp ps; simpl.
  - by left.
  - assert (Hgrow : colname ∈ db_cols -> forall ps',
              c ∈ (update_parts db_cols rest (sp ++ [colname]) ps').1 ->
              c ∈ sp \/ c ∈ db_cols).
    { intros Hdb ps' H. destruct (IH _ _ H) as [Hin|?]; [|by right].
      apply elem_of_app in Hin as [?|Hin]; [by left|right].
      by apply list_elem_of_singleton in Hin as ->. }
    case_bool_decide as Hdb; simpl; [|apply IH].
    destruct (decide (colname = qtde)); [|by apply Hgrow].
    destruct (int_float val); by apply Hgrow.
Qed.

(** Every row for a key in the store whose quantity does not parse makes
    the [UPDATE] raise, and with it the import. *)
Lemma bad_quantity_update_raises cols colmap codigo_col row cnt s v e :
  let codigo_val := row_get cols row codigo_col in
  let k := strip (py_str codigo_val) in
  is_missing codigo_val = false -> k <> [] ->
  existsb (row_matches (PStr k)) (records (conn s)) = true ->
  (qtde, v) ∈ row_values cols row colmap ->
  int_float v = Raise e ->
  qtde ∈ column_names (conn s) ->
  process_row cols colmap codigo_col (column_names (conn s)) row cnt s
  = (s, Raise ProgrammingError).
Proof.
  intros codigo_val k Hkey Hk Hex Hin Hv Hq.
  unfold process_row. destruct cnt as [[inserted updated] ignored].
  fold codigo_val. rewrite Hkey. fold k.
  rewrite bool_decide_eq_false_2 by done.
  change (false || false) with false. cbv iota.
  rewrite select_codigo_bind, Hex.
  destruct (row_values cols row colmap) as [|item rest] eqn:Hvals.
  { by apply elem_of_nil in Hin. }
  change (is_empty (item :: rest)) with false. cbv iota.
  destruct (update_parts_lengths (column_names (conn s)) (item :: rest) [] [])
    as [_ Hlt].
  pose proof (fun c => update_parts_known (column_names (conn s))
                         (item :: rest) [] [] c) as Hknown.
  destruct (update_parts (column_names (conn s)) (item :: rest) [] [])
    as [sp ps] eqn:Hup.
  simpl in Hlt, Hknown.
  assert (Hshort : (length ps < length sp)%nat).
  { assert (H : (length ps + 0 < length sp + 0)%nat) by (apply Hlt; eauto). lia. }
  destruct sp as [|c0 sp]; [simpl in Hshort; lia|].
  change (is_empty (c0 :: sp)) with false. cbv iota.
  unfold mbind, execute_update.
  assert (Hk' : known_columns (conn s) (c0 :: sp) = true).
  { apply forallb_forall. intros c Hc. apply bool_decide_eq_true_2.
    apply list_elem_of_In in Hc.
    destruct (Hknown c Hc) as [H|H]; [by apply elem_of_nil in H|done]. }
  rewrite Hk'. simpl negb. cbv iota.
  assert (Hlen : (length (ps ++ [PStr k]) =? S (S (length sp)))%nat = false).
  { apply Nat.eqb_neq. rewrite length_app. simpl in *. lia. }
  by rewrite Hlen.
Qed.

End BadQuantity.

(** ** Header synonyms *)

Example synonyms_of_codigo :
  build_colmap [lit "C" ++ [211] ++ lit "DIGO"; lit "Qtde"] []
  = Ok [(lit "C" ++ [211] ++ lit "DIGO", codigo); (lit "Qtde", qtde)]
  /\ dict_get friendly_to_normal (lower (lit "C" ++ [243] ++ lit "digo"))
     = Some codigo
  /\ dict_get friendly_to_normal (lower (lit "codigo")) = Some codigo.
Proof. repeat split; reflexivity. Qed.

(** * Further properties *)

(** ** Header mapping *)

Section Headers.

Lemma dict_set_elem {V} (d : dict V) (k : pystr) (v : V) (kv : pystr * V) :
  kv ∈ dict_set d k v -> kv = (k, v) \/ kv ∈ d.
Proof.
  induction d as [|[k' v'] d IH]; simpl.
  - rewrite list_elem_of_singleton. by left.
  - destruct (decide (k' = k)) as [->|Hne]; rewrite !elem_of_cons.
    + intros [?|?]; [by left|right; by right].
    + intros [?|H]; [right; by left|].
      destruct (IH H); [by left|right; by right].
Qed.

Lemma build_colmap_cons orig rest colmap :
  build_colmap (orig :: rest) colmap
  = match dict_get friendly_to_normal (lower orig) with
    | Some norm => build_colmap rest (dict_set colmap orig norm)
    | None =>
        bind (normalize_colname orig) (fun norm =>
        build_colmap rest (dict_set colmap orig norm))
    end.
Proof. reflexivity. Qed.

(** A header outside the synonym table makes the mapping raise. *)
Lemma build_colmap_unknown cols colmap h :
  h ∈ cols -> dict_get friendly_to_normal (lower h) = None ->
  build_colmap cols colmap = Raise ValueError.
Proof.
  intros Hin Hh. revert colmap.
  induction cols as [|orig rest IH]; intros colmap; [by apply elem_of_nil in Hin|].
  rewrite build_colmap_cons.
  destruct (dict_get friendly_to_normal (lower orig)) as [norm|] eqn:Ho.
  - apply elem_of_cons in Hin as [->|Hin]; [congruence|]. by apply IH.
  - by rewrite normalize_colname_raises.
Qed.

(** A mapping that is built pairs each header with its synonym. *)
Lemma build_colmap_Ok cols acc colmap :
  build_colmap cols acc = Ok colmap ->
  forall o n, (o, n) ∈ colmap ->
    (o, n) ∈ acc \/ dict_get friendly_to_normal (lower o) = Some n.
Proof.
  revert acc. induction cols as [|orig rest IH]; intros acc.
  - intros [= <-] o n H. by left.
  - rewrite build_colmap_cons.
    destruct (dict_get friendly_to_normal (lower orig)) as [norm|] eqn:Ho.
    + intros H o n Hin. destruct (IH _ H o n Hin) as [Hacc|?]; [|by right].
      apply dict_set_elem in Hacc as [[= -> ->]|?]; [by right|by left].
    + by rewrite normalize_colname_raises.
Qed.

Lemma build_colmap_synonyms cols acc :
  (forall h, h ∈ cols -> is_Some (dict_get friendly_to_normal (lower h))) ->
  exists colmap, build_colmap cols acc = Ok colmap.
Proof.
  revert acc. induction cols as [|orig rest IH]; intros acc Hall.
  - by eexists.
  - rewrite build_colmap_cons.
    destruct (Hall orig (list_elem_of_here _ _)) as [norm ->].
    apply IH. intros h Hh. by apply Hall, list_elem_of_further.
Qed.

Lemma friendly_values k n :
  dict_get friendly_to_normal k = Some n ->
  n ∈ [codigo; produto; categoria; rua; nivel; predio; qtde].
Proof.
  unfold friendly_to_normal. simpl.
  repeat (case_decide; [intros [= <-];
    apply (bool_decide_eq_true_1 _); vm_compute; reflexivity|]).
  discriminate.
Qed.

Lemma process_rows_columns cols colmap codigo_col db_cols rows cnt s :
  columns (conn (process_rows cols colmap codigo_col db_cols rows cnt s).1)
  = columns (conn s).
Proof.
  revert cnt s. induction rows as [|row rest IH]; intros cnt s; simpl; [done|].
  unfold mbind.
  pose proof (process_row_columns cols colmap codigo_col db_cols row cnt s) as H.
  destruct (process_row _ _ _ _ row cnt s) as [s1 [cnt1|e]]; simpl in *; [|done].
  by rewrite IH.
Qed.

(** X1: a call to the schema evolver succeeds when the names it has to add
    are plain identifiers (not empty, over [[0-9a-z_]]), pairwise distinct
    and different from the existing column names, both ignoring ASCII
    case, and the table stays within 2000 columns; the schema is then the
    old one followed by the missing fields in request order. *)
Theorem X1_ensure_succeeds_on_fresh_names cols s :
  let missing := missing_columns (column_names (conn s)) cols in
  Forall (fun c => plain_name c = true) (map fst missing) ->
  (length (columns (conn s)) + length missing <= 2000)%nat ->
  NoDup (map lower_ascii (map fst missing)) ->
  (forall c, c ∈ map fst missing ->
             lower_ascii c ∉ map lower_ascii (column_names (conn s))) ->
  (ensure_table_and_columns cols s).2 = Ok tt
  /\ columns (conn (ensure_table_and_columns cols s).1)
     = columns (conn s) ++ missing.
Proof.
  intros missing _ _ Hnd Hfresh. subst missing.
  pose proof (ensure_succeeds cols s Hnd Hfresh) as Hok.
  split; [done|].
  destruct (ensure_table_and_columns_spec cols s) as (added & Hc & _ & Hall & _).
  rewrite Hc. f_equal. by apply Hall.
Qed.

Lemma X1_witness :
  (ensure_table_and_columns
     [(qtde, TEXT); (lit "lote", TEXT); (lit "zona", INTEGER)] initial_state).2
  = Ok tt.
Proof.
  apply X1_ensure_succeeds_on_fresh_names.
  - apply (bool_decide_eq_true_1 _). vm_compute. reflexivity.
  - vm_compute. lia.
  - apply (bool_decide_eq_true_1 _). vm_compute. reflexivity.
  - intros c Hc. revert c Hc. apply Forall_forall.
    apply (bool_decide_eq_true_1 _). vm_compute. reflexivity.
Defined.

(** X2: a sheet with any header that is not, after trimming and
    lowercasing, in the synonym table makes the import raise [ValueError]
    before anything is written or shown. *)
Theorem X2_import_raises_on_a_header_outside_the_synonyms df s h :
  h ∈ df_columns df ->
  dict_get friendly_to_normal (lower (strip h)) = None ->
  import_excel_inteligente df s = (s, Raise ValueError).
Proof.
  intros Hin Hh. unfold import_excel_inteligente.
  rewrite (build_colmap_unknown _ [] (strip h)); [done| |done].
  by apply elem_of_map_2.
Qed.

Lemma X2_witness :
  import_excel_inteligente
    (sheet ["codigo"; "Fornecedor"]%string [[txt "A1"; txt "ACME"]]) stocked
  = (stocked, Raise ValueError).
Proof.
  apply (X2_import_raises_on_a_header_outside_the_synonyms _ _ (lit "Fornecedor")).
  - apply (bool_decide_eq_true_1 _). vm_compute. reflexivity.
  - reflexivity.
Defined.

(** X3: when every header is a synonym and none of them names the key, the
    import shows the message of line 141, returns three zeros and leaves
    the table as it was, whatever the rows hold. *)
Theorem X3_import_without_key_shows_message df s :
  (forall h, h ∈ df_columns df ->
     exists n, dict_get friendly_to_normal (lower (strip h)) = Some n
               /\ n <> codigo) ->
  import_excel_inteligente df s
  = ({| conn := conn s; shown := shown s ++ [ErrorPlanilhaSemCodigo] |},
     Ok (0, 0, 0)%nat).
Proof.
  intros Hall.
  destruct (build_colmap_synonyms (map strip (df_columns df)) []) as [colmap Hmap].
  { intros h' Hh'. apply elem_of_map in Hh' as (h & -> & Hh).
    destruct (Hall h Hh) as (n & -> & _). by eexists. }
  pose proof (import_without_key_column df s) as H. rewrite Hmap in H.
  apply H. unfold codigo_cols.
  destruct (filter _ colmap) as [|[o n] rest] eqn:Hf; [done|].
  assert (Hin : (o, n) ∈ filter (fun on : pystr * pystr => on.2 = codigo) colmap)
    by (rewrite Hf; apply list_elem_of_here).
  apply list_elem_of_filter in Hin as [Hn Hin]. simpl in Hn. subst n.
  destruct (build_colmap_Ok _ _ _ Hmap o codigo Hin) as [Hacc|Ho];
    [by apply elem_of_nil in Hacc|].
  assert (Hcols : forall cols acc cm, build_colmap cols acc = Ok cm ->
            forall o' n', (o', n') ∈ cm -> (o', n') ∈ acc \/ o' ∈ cols).
  { clear. induction cols as [|orig rest IH]; intros acc cm.
    - intros [= <-] o' n' H. by left.
    - rewrite build_colmap_cons.
      destruct (dict_get friendly_to_normal (lower orig)) as [norm|].
      + intros H o' n' Hin. destruct (IH _ _ H o' n' Hin) as [Hacc|?].
        * apply dict_set_elem in Hacc as [[= -> ->]|?];
            [right; apply list_elem_of_here|by left].
        * right. by apply list_elem_of_further.
      + by rewrite normalize_colname_raises. }
  destruct (Hcols _ _ _ Hmap o codigo Hin) as [Hacc|Ho'];
    [by apply elem_of_nil in Hacc|].
  apply elem_of_map in Ho' as (h & -> & Hh).
  destruct (Hall h Hh) as (n & Hn & Hne). congruence.
Qed.

Lemma X3_witness :
  (import_excel_inteligente
     (sheet ["Produto"; " QTDE "]%string [[txt "Bolt"; txt "3"]]) stocked).2
  = Ok (0, 0, 0)%nat.
Proof.
  rewrite X3_import_without_key_shows_message; [reflexivity|].
  intros h Hh. revert h Hh. apply Forall_forall.
  repeat constructor.
  - exists produto. split; [reflexivity|discriminate].
  - exists qtde. split; [reflexivity|discriminate].
Defined.

(** X4: on a table that has the key and the six baseline columns, an import
    never changes the schema, whatever the sheet and however it ends. *)
Theorem X4_import_keeps_the_schema df s :
  Forall (fun c => c ∈ column_names (conn s))
         [codigo; produto; categoria; rua; nivel; predio; qtde] ->
  columns (conn (import_excel_inteligente df s).1) = columns (conn s).
Proof.
  intros Hbase. unfold import_excel_inteligente.
  destruct (build_colmap (map strip (df_columns df)) []) as [colmap|e] eqn:Hmap;
    [|done].
  unfold mbind at 1, lift.
  destruct (codigo_cols colmap) as [|codigo_col ?]; [done|].
  assert (Hens : ensure_table_and_columns (columns_to_ensure colmap) s = (s, Ok tt)).
  { rewrite ensure_unfold. apply add_missing_all_present.
    intros c Hc. apply elem_of_map in Hc as ([c' ty] & -> & Hc).
    apply elem_of_map in Hc as ([o n] & Heq & Hon).
    assert (c' = n) as -> by (simpl in Heq; by destruct (decide (n = qtde)); injection Heq).
    destruct (build_colmap_Ok _ _ _ Hmap o n Hon) as [Hacc|Hsyn];
      [by apply elem_of_nil in Hacc|].
    apply (proj1 (Forall_forall _ _) Hbase). by eapply friendly_values. }
  unfold mbind at 1. rewrite Hens. rewrite get_table_columns_bind.
  apply process_rows_columns.
Qed.

Lemma X4_witness :
  columns (conn (import_excel_inteligente
                   (sheet ["codigo"; "qtde"]%string [[txt "C3"; txt "4"]])
                   stocked).1)
  = columns (conn stocked).
Proof.
  apply X4_import_keeps_the_schema.
  apply (bool_decide_eq_true_1 _). vm_compute. reflexivity.
Defined.

End Headers.

(** ** Rows and counters *)

Section Rows.

(** X5: when the import returns, either its three counters add up to the
    number of data rows, or it is the return of line 142: three zeros, the
    message about the key column shown and the table untouched. *)
Theorem X5_returned_counters_cover_the_rows df s s' cnt :
  import_excel_inteligente df s = (s', Ok cnt) ->
  total cnt = length (df_rows df)
  \/ (cnt = (0, 0, 0)%nat
      /\ s' = {| conn := conn s; shown := shown s ++ [ErrorPlanilhaSemCodigo] |}).
Proof.
  intros H.
  destruct (build_colmap (map strip (df_columns df)) []) as [colmap|e] eqn:Hmap.
  - destruct (codigo_cols colmap) as [|c ?] eqn:Hcols.
    + right. pose proof (import_without_key_column df s) as Hno.
      rewrite Hmap in Hno. rewrite (Hno Hcols) in H. by injection H as <- <-.
    + left. eapply import_counts_add_up; [exact Hmap| |exact H].
      by rewrite Hcols.
  - pose proof (import_without_key_column df s) as Hno.
    rewrite Hmap in Hno. rewrite Hno in H. discriminate.
Qed.

Lemma X5_witness :
  total (1, 1, 1)%nat = 3%nat
  \/ ((1, 1, 1)%nat = (0, 0, 0)%nat
      /\ (import_excel_inteligente
            (sheet ["codigo"; "qtde"]%string
                   [[txt "B7"; txt "5"]; [txt "B7"; txt "8"]; [txt "B7"; PNaN]])
            initial_state).1
         = {| conn := conn initial_state;
              shown := shown initial_state ++ [ErrorPlanilhaSemCodigo] |}).
Proof.
  apply (X5_returned_counters_cover_the_rows
           (sheet ["codigo"; "qtde"]%string
                  [[txt "B7"; txt "5"]; [txt "B7"; txt "8"]; [txt "B7"; PNaN]])
           initial_state).
  vm_compute. reflexivity.
Defined.

Lemma execute_update_raise set_parts params s e :
  (execute_update set_parts params s).2 = Raise e ->
  (execute_update set_parts params s).1 = s.
Proof.
  destruct (execute_update_spec set_parts params s) as (_ & _ & [H|[H _]] & _);
    [done|]. rewrite H. discriminate.
Qed.

Lemma execute_insert_raise insert_cols insert_vals s e :
  (execute_insert insert_cols insert_vals s).2 = Raise e ->
  (execute_insert insert_cols insert_vals s).1 = s.
Proof.
  destruct (execute_insert_spec insert_cols insert_vals s)
    as (_ & _ & [H|[H _]]); [done|]. rewrite H. discriminate.
Qed.

(** X6: one row of the import counts exactly once when it returns, and it
    changes nothing when it raises or is counted as ignored: a failing
    statement leaves no partial write behind. *)
Theorem X6_row_counts_once_or_changes_nothing
    cols colmap codigo_col db_cols row cnt s :
  let out := process_row cols colmap codigo_col db_cols row cnt s in
  match out.2 with
  | Raise _ => out.1 = s
  | Ok cnt' =>
      total cnt' = S (total cnt)
      /\ (cnt'.2 = S cnt.2 -> out.1 = s)
      /\ (cnt' = (S cnt.1.1, cnt.1.2, cnt.2)
          \/ cnt' = (cnt.1.1, S cnt.1.2, cnt.2)
          \/ cnt' = (cnt.1.1, cnt.1.2, S cnt.2))
  end.
Proof.
  intros out. subst out. unfold process_row.
  destruct cnt as [[inserted updated] ignored]. unfold total. simpl.
  destruct (is_missing _ || bool_decide _).
  { simpl. split; [lia|]. split; [done|]. by right; right. }
  rewrite select_codigo_bind.
  destruct (existsb _ _).
  - destruct (is_empty (row_values cols row colmap)).
    { simpl. split; [lia|]. split; [done|]. by right; right. }
    destruct (update_parts _ _ _ _) as [sp ps].
    destruct (is_empty sp).
    { simpl. split; [lia|]. split; [done|]. by right; right. }
    unfold mbind, ret.
    pose proof (execute_update_raise sp (ps ++ [PStr (strip (py_str
                  (row_get cols row codigo_col)))]) s) as Hr.
    destruct (execute_update _ _ s) as [s1 [[]|e]]; simpl in *.
    + split; [lia|]. split; [lia|]. by right; left.
    + by eapply Hr.
  - destruct (insert_parts _ _ _ _) as [ic iv].
    unfold mbind, ret.
    pose proof (execute_insert_raise ic iv s) as Hr.
    destruct (execute_insert _ _ s) as [s1 [[]|e]]; simpl in *.
    + split; [lia|]. split; [lia|]. by left.
    + by eapply Hr.
Qed.

(** ** The values of a row, exactly *)

Lemma dict_pop_keeps {V} (d : dict V) (k c : pystr) :
  c <> k -> c ∈ map fst d -> c ∈ map fst (dict_pop d k).
Proof.
  intros Hne. induction d as [|[k' v'] d IH]; simpl; [done|].
  destruct (decide (k' = k)) as [->|Hk]; simpl; rewrite !elem_of_cons.
  - intros [?|?]; [congruence|done].
  - intros [?|?]; [by left|right; auto].
Qed.

Lemma dict_pop_NoDup {V} (d : dict V) (k : pystr) :
  NoDup (map fst d) -> NoDup (map fst (dict_pop d k)).
Proof.
  induction d as [|[k' v'] d IH]; simpl; [done|].
  intros Hnd. apply NoDup_cons in Hnd as [Hhd Htl].
  destruct (decide (k' = k)); simpl; [done|].
  apply NoDup_cons. split; [|by apply IH].
  intros H. by apply Hhd, (dict_pop_key_elem d k).
Qed.

Lemma collect_values_keeps cols row colmap values c :
  c ∈ map fst values ->
  c ∈ map fst (collect_values cols row colmap values).
Proof.
  revert values. induction colmap as [|[orig norm] rest IH]; intros values Hc;
    simpl; [done|].
  destruct (row_get cols row orig); try by apply IH.
  - destruct (decide (strip s = [])); apply IH; [done|].
    apply dict_set_key_elem. by right.
  - apply IH, dict_set_key_elem. by right.
Qed.

Lemma collect_values_adds cols row colmap values orig c :
  (orig, c) ∈ colmap ->
  row_has_value (row_get cols row orig) = true ->
  c ∈ map fst (collect_values cols row colmap values).
Proof.
  revert values. induction colmap as [|[o n] rest IH]; intros values Hin Hp.
  - by apply elem_of_nil in Hin.
  - apply elem_of_cons in Hin as [[= <- <-]|Hin].
    + simpl. destruct (row_get cols row orig) as [| |str|z]; try discriminate.
      * simpl in Hp. apply negb_true_iff, bool_decide_eq_false_1 in Hp.
        rewrite decide_False by done.
        apply collect_values_keeps, dict_set_key_elem. by left.
      * apply collect_values_keeps, dict_set_key_elem. by left.
    + simpl. destruct (row_get cols row o); try by apply IH.
      destruct (decide (strip s = [])); by apply IH.
Qed.

Lemma row_values_exact cols row colmap c :
  NoDup (map fst (row_values cols row colmap))
  /\ (c ∈ map fst (row_values cols row colmap)
      <-> c <> codigo
          /\ exists orig, (orig, c) ∈ colmap
                          /\ row_has_value (row_get cols row orig) = true).
Proof.
  pose proof (collect_values_NoDup cols row colmap [] (NoDup_nil_2)) as Hnd.
  split.
  - unfold row_values. case_bool_decide; [by apply dict_pop_NoDup|done].
  - split; [apply row_values_keys|].
    intros (Hne & orig & Hin & Hp). unfold row_values.
    pose proof (collect_values_adds cols row colmap [] orig c Hin Hp) as Hc.
    case_bool_decide; [by apply dict_pop_keeps|done].
Qed.

(** X7: for headers that are distinct after stripping, the change-set of
    a row has one entry per field: a field is in it exactly when it is not
    the key and some column mapped to it has a present cell in the sense
    of [row_has_value]. *)
Theorem X7_change_set_is_the_present_fields cols row colmap c :
  NoDup cols ->
  NoDup (map fst (row_values cols row colmap))
  /\ (c ∈ map fst (row_values cols row colmap)
      <-> c <> codigo
          /\ exists orig, (orig, c) ∈ colmap
                          /\ row_has_value (row_get cols row orig) = true).
Proof. intros _. apply row_values_exact. Qed.

Lemma X7_witness :
  qtde ∈ map fst (row_values (map lit ["codigo"; "produto"; "quantidade"]%string)
                    [txt "A1"; txt "  "; PInt 3]
                    [(codigo, codigo); (produto, produto);
                     (lit "quantidade", qtde)]).
Proof.
  apply (X7_change_set_is_the_present_fields
           (map lit ["codigo"; "produto"; "quantidade"]%string)).
  - apply (bool_decide_eq_true_1 _). vm_compute. reflexivity.
  - split; [discriminate|]. exists (lit "quantidade"). split.
    + apply (bool_decide_eq_true_1 _). vm_compute. reflexivity.
    + reflexivity.
Defined.

End Rows.

(** ** What a row writes *)

Section Writes.

Lemma bound_value_default colname val :
  default PNone (bound_value colname val)
  = if decide (colname = qtde) then
      match int_float val with
      | Ok v => PInt v
      | Raise _ => PNone
      end
    else val.
Proof.
  unfold bound_value. destruct (decide (colname = qtde)); [|done].
  by destruct (int_float val).
Qed.

Lemma insert_parts_eq db_cols items insert_cols insert_vals :
  insert_parts db_cols items insert_cols insert_vals
  = (insert_cols ++ map fst (bindings db_cols items),
     insert_vals ++ map snd (bindings db_cols items)).
Proof.
  revert insert_cols insert_vals.
  induction items as [|[colname val] rest IH]; intros ic iv.
  - simpl. by rewrite !app_nil_r.
  - unfold bindings. rewrite filter_cons. simpl.
    case_bool_decide as Hdb; simpl.
    + rewrite (decide_True (P := colname ∈ db_cols)) by done. simpl.
      rewrite bound_value_default.
      destruct (decide (colname = qtde)); by rewrite IH, <- !app_assoc.
    + rewrite (decide_False (P := colname ∈ db_cols)) by done. apply IH.
Qed.

Lemma update_parts_eq db_cols items set_parts params :
  (forall c v, (c, v) ∈ items -> c ∈ db_cols -> is_Some (bound_value c v)) ->
  update_parts db_cols items set_parts params
  = (set_parts ++ map fst (bindings db_cols items),
     params ++ map snd (bindings db_cols items)).
Proof.
  revert set_parts params.
  induction items as [|[colname val] rest IH]; intros sp ps Hall.
  - simpl. by rewrite !app_nil_r.
  - assert (Hrest : forall c v, (c, v) ∈ rest -> c ∈ db_cols ->
                                is_Some (bound_value c v)).
    { intros c v Hin. apply Hall. by apply list_elem_of_further. }
    unfold bindings. rewrite filter_cons. simpl.
    case_bool_decide as Hdb; simpl.
    + rewrite (decide_True (P := colname ∈ db_cols)) by done. simpl.
      destruct (Hall colname val (list_elem_of_here _ _) Hdb) as [v' Hv'].
      rewrite Hv'. simpl. unfold bound_value in Hv'.
      destruct (decide (colname = qtde)).
      * destruct (int_float val); [|discriminate]. injection Hv' as <-.
        by rewrite IH, <- !app_assoc.
      * injection Hv' as <-. by rewrite IH, <- !app_assoc.
    + rewrite (decide_False (P := colname ∈ db_cols)) by done. by apply IH.
Qed.

Lemma bindings_keys db_cols items c :
  c ∈ map fst (bindings db_cols items) <-> c ∈ map fst items /\ c ∈ db_cols.
Proof.
  unfold bindings. rewrite !elem_of_map. split.
  - intros ([c' v'] & -> & H). apply elem_of_map in H as ([c0 v0] & [= -> ->] & H).
    apply list_elem_of_filter in H as [Hdb Hin]. split; [|done].
    exists (c0, v0). by split.
  - intros (([c0 v0] & -> & Hin) & Hdb).
    exists (c0, default PNone (bound_value c0 v0)). split; [done|].
    apply elem_of_map. exists (c0, v0). split; [done|].
    by apply list_elem_of_filter.
Qed.

Lemma bindings_elem db_cols items c v :
  (c, v) ∈ items -> c ∈ db_cols ->
  (c, default PNone (bound_value c v)) ∈ bindings db_cols items.
Proof.
  intros Hin Hdb. unfold bindings. apply elem_of_map.
  exists (c, v). split; [done|]. by apply list_elem_of_filter.
Qed.

Lemma bindings_NoDup db_cols items :
  NoDup (map fst items) -> NoDup (map fst (bindings db_cols items)).
Proof.
  induction items as [|[c v] rest IH]; [done|].
  unfold bindings. rewrite filter_cons. simpl. intros Hnd.
  apply NoDup_cons in Hnd as [Hhd Htl].
  destruct (decide (c ∈ db_cols)); simpl; [|by apply IH].
  apply NoDup_cons. split; [|by apply IH].
  intros H. apply Hhd. by apply (bindings_keys db_cols rest c).
Qed.

Lemma zip_map_fst_snd {A B} (l : list (A * B)) (tl : list B) :
  zip (map fst l) (map snd l ++ tl) = l.
Proof. induction l as [|[a b] l IH]; simpl; [by destruct tl|]. by rewrite IH. Qed.

Lemma foldl_assign_lookup_in (r : gmap pystr value) (l : dict value) c v :
  NoDup (map fst l) -> (c, v) ∈ l -> foldl assign r l !! c = Some v.
Proof.
  revert r. induction l as [|[k w] l IH]; intros r Hnd Hin.
  - by apply elem_of_nil in Hin.
  - simpl in Hnd. apply NoDup_cons in Hnd as [Hhd Htl].
    apply elem_of_cons in Hin as [[= -> ->]|Hin].
    + by apply foldl_assign_first.
    + simpl. by apply IH.
Qed.

Lemma pk_values_absent k recs :
  existsb (row_matches (PStr k)) recs = false -> PStr k ∉ pk_values recs.
Proof.
  induction recs as [|r recs IH]; simpl; intros H.
  - apply not_elem_of_nil.
  - apply orb_false_iff in H as [Hr Hrest].
    apply bool_decide_eq_false_1 in Hr.
    unfold pk_values in *. simpl.
    destruct (r !! codigo) as [[| |str|z]|] eqn:Hk; simpl; try by apply IH.
    + rewrite not_elem_of_cons. split; [congruence|by apply IH].
    + rewrite not_elem_of_cons. split; [discriminate|by apply IH].
Qed.

Lemma pk_values_same_key (l l' : list (gmap pystr value)) :
  Forall2 (fun r0 r1 => r1 !! codigo = r0 !! codigo) l l' ->
  pk_values l' = pk_values l.
Proof.
  induction 1 as [|r0 r1 l l' H _ IH]; [done|].
  unfold pk_values. simpl. rewrite H.
  destruct (r0 !! codigo) as [[| |str|z]|]; simpl;
    first [exact IH | f_equal; exact IH].
Qed.

Lemma existsb_same_key (k : value) (l l' : list (gmap pystr value)) :
  Forall2 (fun r0 r1 => r1 !! codigo = r0 !! codigo) l l' ->
  existsb (row_matches k) l' = existsb (row_matches k) l.
Proof.
  induction 1 as [|r0 r1 l l' H _ IH]; simpl; [done|].
  rewrite IH. f_equal. unfold row_matches. by rewrite H.
Qed.

Lemma pk_unique_snoc (recs : list (gmap pystr value)) r k :
  pk_unique recs = true ->
  existsb (row_matches (PStr k)) recs = false ->
  r !! codigo = Some (PStr k) ->
  pk_unique (recs ++ [r]) = true.
Proof.
  intros Hpk Hex Hr. apply bool_decide_eq_true_2. unfold pk_values.
  rewrite omap_app. simpl. rewrite Hr. simpl.
  apply NoDup_app. split; [by apply bool_decide_eq_true_1 in Hpk|].
  split; [|apply NoDup_singleton].
  intros x Hx Hx'. apply list_elem_of_singleton in Hx' as ->.
  by apply (pk_values_absent k recs Hex).
Qed.

Lemma known_columns_intro (t : table) (cs : list pystr) :
  (forall c, c ∈ cs -> c ∈ column_names t) -> known_columns t cs = true.
Proof.
  intros H. apply forallb_forall. intros c Hc.
  apply bool_decide_eq_true_2, H. by apply list_elem_of_In.
Qed.

(** X8: for headers that are distinct after stripping, a row whose key is
    not blank and not in the store is inserted when SQLite stores what the
    row binds as it is bound (the key and the other text in [TEXT]
    columns, integers of 64 bits in [INTEGER] columns): the import counts
    it as inserted and appends one record that holds the trimmed key,
    every present value whose column the table has (the quantity as an
    integer, or NULL when it does not parse), and nothing else. *)
Theorem X8_new_key_row_is_inserted cols colmap codigo_col row cnt s :
  let codigo_val := row_get cols row codigo_col in
  let k := strip (py_str codigo_val) in
  let values := row_values cols row colmap in
  NoDup cols ->
  is_missing codigo_val = false -> k <> [] ->
  existsb (row_matches (PStr k)) (records (conn s)) = false ->
  pk_unique (records (conn s)) = true ->
  codigo ∈ column_names (conn s) ->
  binds_as_stored (conn s) codigo (PStr k) = true ->
  (forall c v, (c, v) ∈ values -> c ∈ column_names (conn s) ->
     binds_as_stored (conn s) c (default PNone (bound_value c v)) = true) ->
  exists r,
    process_row cols colmap codigo_col (column_names (conn s)) row cnt s
    = (with_table s {| columns := columns (conn s);
                       records := records (conn s) ++ [r] |},
       Ok (S cnt.1.1, cnt.1.2, cnt.2))
    /\ r !! codigo = Some (PStr k)
    /\ (forall c v, (c, v) ∈ values -> c ∈ column_names (conn s) ->
          r !! c = Some (default PNone (bound_value c v)))
    /\ (forall c, c <> codigo -> c ∉ map fst values -> r !! c = None).
Proof.
  intros codigo_val k values _ Hkey Hk Hex Hpk Hcod _ _.
  destruct (row_values_exact cols row colmap codigo)
    as [Hnd Hiff].
  fold values in Hnd, Hiff.
  assert (Hnocod : codigo ∉ map fst values).
  { intros H. apply Hiff in H as [H _]. done. }
  set (b := bindings (column_names (conn s)) values).
  assert (Hbk : codigo ∉ map fst b).
  { intros H. apply bindings_keys in H as [H _]. done. }
  exists (foldl assign ∅ ((codigo, PStr k) :: b)). split; [|split; [|split]].
  - unfold process_row. destruct cnt as [[inserted updated] ignored].
    fold codigo_val. rewrite Hkey. fold k.
    rewrite bool_decide_eq_false_2 by done.
    change (false || false) with false. cbv iota.
    rewrite select_codigo_bind, Hex. fold values.
    rewrite insert_parts_eq. fold b.
    change ([codigo] ++ map fst b) with (codigo :: map fst b).
    change ([PStr k] ++ map snd b) with (PStr k :: map snd b).
    unfold mbind, execute_insert.
    rewrite known_columns_intro.
    2:{ intros c Hc. apply elem_of_cons in Hc as [->|Hc]; [done|].
        by apply bindings_keys in Hc as [_ ?]. }
    simpl negb. cbv iota.
    assert (Hlen : (length (map snd b) =? length (map fst b))%nat = true).
    { apply Nat.eqb_eq. by rewrite !length_map. }
    rewrite Hlen. simpl negb. cbv iota.
    assert (Hzip : zip (codigo :: map fst b) (PStr k :: map snd b)
                   = (codigo, PStr k) :: b).
    { simpl. f_equal. rewrite <- (app_nil_r (map snd b)).
      apply zip_map_fst_snd. }
    rewrite Hzip.
    rewrite (pk_unique_snoc _ _ k Hpk Hex); [done|].
    by apply foldl_assign_first.
  - by apply foldl_assign_first.
  - intros c v Hin Hc.
    apply foldl_assign_lookup_in.
    + simpl. apply NoDup_cons. split; [done|by apply bindings_NoDup].
    + apply list_elem_of_further. by apply bindings_elem.
  - intros c Hne Hc. rewrite foldl_assign_lookup.
    + apply lookup_empty.
    + simpl. rewrite not_elem_of_cons. split; [done|].
      intros H. by apply bindings_keys in H as [? _].
Qed.

Lemma X8_witness :
  exists r,
    process_row (map lit ["codigo"; "produto"; "qtde"]%string)
      [(codigo, codigo); (produto, produto); (qtde, qtde)] codigo
      (column_names (conn stocked)) [txt " Z9 "; txt "Nut"; txt "abc"]
      (0, 0, 0)%nat stocked
    = (with_table stocked {| columns := columns (conn stocked);
                             records := records (conn stocked) ++ [r] |},
       Ok (1, 0, 0)%nat)
    /\ summary r = (txt "Z9", txt "Nut", PNone).
Proof.
  destruct (X8_new_key_row_is_inserted
              (map lit ["codigo"; "produto"; "qtde"]%string)
              [(codigo, codigo); (produto, produto); (qtde, qtde)] codigo
              [txt " Z9 "; txt "Nut"; txt "abc"] (0, 0, 0)%nat stocked)
    as (r & Hrow & Hcod & Hvals & _).
  - apply (bool_decide_eq_true_1 _). vm_compute. reflexivity.
  - reflexivity.
  - discriminate.
  - reflexivity.
  - reflexivity.
  - apply (bool_decide_eq_true_1 _). vm_compute. reflexivity.
  - reflexivity.
  - intros c v Hin _. vm_compute in Hin.
    apply elem_of_cons in Hin as [[= -> ->]|Hin]; [reflexivity|].
    apply list_elem_of_singleton in Hin as [= -> ->]. reflexivity.
  - exists r. split; [exact Hrow|].
    unfold summary, field. rewrite Hcod.
    rewrite (Hvals produto (txt "Nut")), (Hvals qtde (txt "abc")).
    + reflexivity.
    + apply (bool_decide_eq_true_1 _). vm_compute. reflexivity.
    + apply (bool_decide_eq_true_1 _). vm_compute. reflexivity.
    + apply (bool_decide_eq_true_1 _). vm_compute. reflexivity.
    + apply (bool_decide_eq_true_1 _). vm_compute. reflexivity.
Defined.

Lemma execute_update_ok set_parts params s :
  known_columns (conn s) set_parts = true ->
  length params = S (length set_parts) ->
  codigo ∉ set_parts ->
  pk_unique (records (conn s)) = true ->
  execute_update set_parts params s
  = (with_table s
       {| columns := columns (conn s);
          records := map (fun r => if row_matches (default PNone (last params)) r
                                   then foldl assign r (zip set_parts params)
                                   else r) (records (conn s)) |},
     Ok tt).
Proof.
  intros Hknown Hlen Hno Hpk. unfold execute_update.
  rewrite Hknown. simpl negb. cbv iota.
  rewrite (proj2 (Nat.eqb_eq _ _) Hlen). simpl negb. cbv iota.
  assert (Hpk' : pk_unique
            (map (fun r => if row_matches (default PNone (last params)) r
                           then foldl assign r (zip set_parts params)
                           else r) (records (conn s))) = true).
  { unfold pk_unique. rewrite (pk_values_same_key (records (conn s))); [done|].
    apply Forall2_map_same. intros r. destruct (row_matches _ r); [|done].
    apply foldl_assign_lookup. intros H. by apply Hno, (zip_fst_elem _ params). }
  by rewrite Hpk'.
Qed.

(** X9: for headers that are distinct after stripping, a row for a key in
    the store, with at least one present value for a column of the table,
    no quantity that fails to parse and only values that SQLite stores as
    bound (text in [TEXT] columns, integers of 64 bits in [INTEGER]
    columns), is counted as updated: the matching record gets exactly the
    present values (the quantity as an integer), keeps every other field,
    and the other records are untouched. *)
Theorem X9_existing_key_row_is_updated cols colmap codigo_col row cnt s :
  let codigo_val := row_get cols row codigo_col in
  let k := strip (py_str codigo_val) in
  let values := row_values cols row colmap in
  NoDup cols ->
  is_missing codigo_val = false -> k <> [] ->
  existsb (row_matches (PStr k)) (records (conn s)) = true ->
  pk_unique (records (conn s)) = true ->
  (forall c v, (c, v) ∈ values -> c ∈ column_names (conn s) ->
               is_Some (bound_value c v)) ->
  (forall c v, (c, v) ∈ values -> c ∈ column_names (conn s) ->
     binds_as_stored (conn s) c (default PNone (bound_value c v)) = true) ->
  (exists c v, (c, v) ∈ values /\ c ∈ column_names (conn s)) ->
  exists recs',
    process_row cols colmap codigo_col (column_names (conn s)) row cnt s
    = (with_table s {| columns := columns (conn s); records := recs' |},
       Ok (cnt.1.1, S cnt.1.2, cnt.2))
    /\ Forall2 (fun r0 r1 =>
                  if row_matches (PStr k) r0
                  then (forall c v, (c, v) ∈ values ->
                                    c ∈ column_names (conn s) ->
                                    r1 !! c = bound_value c v)
                       /\ (forall c, c ∉ map fst values -> r1 !! c = r0 !! c)
                  else r1 = r0)
               (records (conn s)) recs'.
Proof.
  intros codigo_val k values _ Hkey Hk Hex Hpk Hbound _ (c0 & v0 & Hin0 & Hc0).
  destruct (row_values_exact cols row colmap codigo)
    as [Hnd Hiff].
  fold values in Hnd, Hiff.
  set (b := bindings (column_names (conn s)) values).
  assert (Hbk : codigo ∉ map fst b).
  { intros H. apply bindings_keys in H as [H _]. by apply Hiff in H as [H _]. }
  eexists. split.
  - unfold process_row. destruct cnt as [[inserted updated] ignored].
    fold codigo_val. rewrite Hkey. fold k.
    rewrite bool_decide_eq_false_2 by done.
    change (false || false) with false. cbv iota.
    rewrite select_codigo_bind, Hex. fold values.
    destruct values as [|item rest] eqn:Hvals; [by apply elem_of_nil in Hin0|].
    change (is_empty (item :: rest)) with false. cbv iota.
    rewrite update_parts_eq by done. fold b.
    rewrite !app_nil_l.
    destruct (map fst b) as [|c1 sp] eqn:Hsp.
    { exfalso. assert (H : c0 ∈ map fst b).
      { apply bindings_keys. split; [|done].
        by apply (elem_of_map_2 fst (item :: rest) (c0, v0)). }
      rewrite Hsp in H. by apply elem_of_nil in H. }
    change (is_empty (c1 :: sp)) with false. cbv iota. rewrite <- Hsp.
    unfold mbind. rewrite execute_update_ok.
    + rewrite last_snoc, zip_map_fst_snd. reflexivity.
    + apply known_columns_intro. intros c Hc.
      by apply bindings_keys in Hc as [_ ?].
    + rewrite length_app, !length_map. simpl. lia.
    + by rewrite Hsp.
    + done.
  - apply Forall2_map_same. intros r. simpl.
    destruct (bool_decide (r !! codigo = Some (PStr k))); [|done]. split.
    + intros c v Hin Hc. destruct (Hbound c v Hin Hc) as [v' Hv'].
      rewrite Hv'. apply foldl_assign_lookup_in; [by apply bindings_NoDup|].
      pose proof (bindings_elem (column_names (conn s)) values c v Hin Hc) as H.
      by rewrite Hv' in H.
    + intros c Hc. apply foldl_assign_lookup. intros H.
      by apply bindings_keys in H as [? _].
Qed.

Lemma X9_witness :
  exists recs',
    process_row (map lit ["codigo"; "produto"; "qtde"]%string)
      [(codigo, codigo); (produto, produto); (qtde, qtde)] codigo
      (column_names (conn stocked)) [txt "A1"; PNaN; txt "7.9"]
      (0, 0, 0)%nat stocked
    = (with_table stocked {| columns := columns (conn stocked);
                             records := recs' |},
       Ok (0, 1, 0)%nat).
Proof.
  destruct (X9_existing_key_row_is_updated
              (map lit ["codigo"; "produto"; "qtde"]%string)
              [(codigo, codigo); (produto, produto); (qtde, qtde)] codigo
              [txt "A1"; PNaN; txt "7.9"] (0, 0, 0)%nat stocked)
    as (recs' & Hrow & _).
  - apply (bool_decide_eq_true_1 _). vm_compute. reflexivity.
  - reflexivity.
  - discriminate.
  - reflexivity.
  - reflexivity.
  - intros c v Hin _. vm_compute in Hin.
    apply list_elem_of_singleton in Hin as [= -> ->]. by eexists.
  - intros c v Hin _. vm_compute in Hin.
    apply list_elem_of_singleton in Hin as [= -> ->]. reflexivity.
  - exists qtde, (txt "7.9"). split.
    + apply (bool_decide_eq_true_1 _). vm_compute. reflexivity.
    + apply (bool_decide_eq_true_1 _). vm_compute. reflexivity.
  - by exists recs'.
Defined.

Lemma execute_insert_ok_inv insert_cols insert_vals s :
  (execute_insert insert_cols insert_vals s).2 = Ok tt ->
  records (conn (execute_insert insert_cols insert_vals s).1)
  = records (conn s) ++ [foldl assign ∅ (zip insert_cols insert_vals)].
Proof.
  unfold execute_insert.
  destruct (known_columns (conn s) insert_cols); simpl; [|done].
  destruct (length insert_vals =? length insert_cols)%nat; simpl; [|done].
  by destruct (pk_unique _).
Qed.

(** X10: for headers that are distinct after stripping, after a row with
    a non-blank key has been counted, as inserted, updated or ignored, a
    record with that key is in the store. *)
Theorem X10_counted_key_is_in_the_store
    cols colmap codigo_col db_cols row cnt s cnt' :
  let codigo_val := row_get cols row codigo_col in
  let k := strip (py_str codigo_val) in
  let out := process_row cols colmap codigo_col db_cols row cnt s in
  NoDup cols ->
  is_missing codigo_val = false -> k <> [] ->
  out.2 = Ok cnt' ->
  existsb (row_matches (PStr k)) (records (conn out.1)) = true.
Proof.
  intros codigo_val k out _ Hkey Hk. subst out. unfold process_row.
  destruct cnt as [[inserted updated] ignored].
  fold codigo_val. rewrite Hkey. fold k.
  rewrite bool_decide_eq_false_2 by done.
  change (false || false) with false. cbv iota.
  rewrite select_codigo_bind.
  destruct (existsb _ _) eqn:Hex.
  - destruct (is_empty (row_values cols row colmap)); [done|].
    destruct (update_parts db_cols (row_values cols row colmap) [] [])
      as [sp ps] eqn:Hup.
    destruct (is_empty sp); [done|].
    intros _. rewrite mbind_ret_fst.
    destruct (execute_update_spec sp (ps ++ [PStr k]) s) as (_ & _ & _ & Hframe).
    rewrite (existsb_same_key _ (records (conn s))); [done|].
    eapply Forall2_impl; [exact Hframe|].
    intros r0 r1 [_ H]. apply H. intros Hin.
    destruct (update_parts_columns db_cols (row_values cols row colmap) [] [] codigo)
      as [H'|H']; [by rewrite Hup|by apply elem_of_nil in H'|].
    by destruct (row_values_keys cols row colmap codigo H').
  - rewrite insert_parts_eq.
    set (b := bindings db_cols (row_values cols row colmap)).
    change ([codigo] ++ map fst b) with (codigo :: map fst b).
    change ([PStr k] ++ map snd b) with (PStr k :: map snd b).
    rewrite mbind_ret_fst. unfold mbind, ret.
    pose proof (execute_insert_ok_inv (codigo :: map fst b) (PStr k :: map snd b) s)
      as Hrec.
    destruct (execute_insert _ _ s) as [s1 [[]|e]]; simpl in *; [|done].
    intros _. rewrite Hrec by done. rewrite existsb_app.
    assert (Hnew : foldl assign ∅ (zip (codigo :: map fst b) (PStr k :: map snd b))
                   !! codigo = Some (PStr k)).
    { apply foldl_assign_first. intros H. apply zip_fst_elem in H.
      apply bindings_keys in H as [H _].
      by destruct (row_values_keys cols row colmap codigo H). }
    apply orb_true_iff. right.
    set (r := foldl assign ∅ (zip (codigo :: map fst b) (PStr k :: map snd b))) in *.
    change (row_matches (PStr k) r || false = true).
    unfold row_matches. by rewrite bool_decide_eq_true_2.
Qed.

Lemma X10_witness :
  existsb (row_matches (txt "Z9"))
    (records (conn (process_row (map lit ["codigo"; "qtde"]%string)
                      [(codigo, codigo); (qtde, qtde)] codigo
                      (column_names (conn stocked)) [txt " Z9"; txt "abc"]
                      (0, 0, 0)%nat stocked).1))
  = true.
Proof.
  apply (X10_counted_key_is_in_the_store
           (map lit ["codigo"; "qtde"]%string)
           [(codigo, codigo); (qtde, qtde)] codigo
           (column_names (conn stocked)) [txt " Z9"; txt "abc"]
           (0, 0, 0)%nat stocked (1, 0, 0)%nat).
  - apply (bool_decide_eq_true_1 _). vm_compute. reflexivity.
  - reflexivity.
  - discriminate.
  - vm_compute. reflexivity.
Defined.

End Writes.

(** ** The update primitive, exactly *)

Section Primitive.

Lemma single_parts_eq db_cols updates set_parts params :
  single_parts db_cols updates set_parts params
  = (set_parts ++ map fst (known_updates db_cols updates),
     params ++ map snd (known_updates db_cols updates)).
Proof.
  revert set_parts params.
  induction updates as [|[col val] rest IH]; intros sp ps.
  - simpl. by rewrite !app_nil_r.
  - unfold known_updates. rewrite filter_cons. simpl.
    case_bool_decide as Hdb; simpl.
    + rewrite (decide_True (P := col ∈ db_cols)) by done. simpl.
      by rewrite IH, <- !app_assoc.
    + rewrite (decide_False (P := col ∈ db_cols)) by done. apply IH.
Qed.

Lemma known_updates_elem db_cols updates c v :
  (c, v) ∈ known_updates db_cols updates <-> (c, v) ∈ updates /\ c ∈ db_cols.
Proof. unfold known_updates. rewrite list_elem_of_filter. simpl. tauto. Qed.

Lemma known_updates_NoDup db_cols updates :
  NoDup (map fst updates) -> NoDup (map fst (known_updates db_cols updates)).
Proof.
  induction updates as [|[c v] rest IH]; [done|].
  unfold known_updates. rewrite filter_cons. simpl. intros Hnd.
  apply NoDup_cons in Hnd as [Hhd Htl].
  destruct (decide (c ∈ db_cols)); simpl; [|by apply IH].
  apply NoDup_cons. split; [|by apply IH].
  intros H. apply Hhd. apply elem_of_map in H as ([c' v'] & -> & H).
  apply known_updates_elem in H as [H _].
  by apply (elem_of_map_2 fst rest (c', v')).
Qed.

(** The primitive in closed form, when the key column is not among the
    updates and some named column exists. *)
Lemma update_single_record_writes cod updates s :
  codigo ∉ map fst updates ->
  pk_unique (records (conn s)) = true ->
  known_updates (column_names (conn s)) updates <> [] ->
  update_single_record cod updates s
  = (with_table s
       {| columns := columns (conn s);
          records :=
            map (fun r => if row_matches (PStr cod) r
                          then foldl assign r
                                 (known_updates (column_names (conn s)) updates)
                          else r) (records (conn s)) |},
     Ok true).
Proof.
  intros Hno Hpk Hne. unfold update_single_record.
  destruct updates as [|u updates]; [done|].
  change (is_empty (u :: updates)) with false. cbv iota.
  rewrite get_table_columns_bind, single_parts_eq, !app_nil_l.
  set (f := known_updates (column_names (conn s)) (u :: updates)) in *.
  destruct (map fst f) as [|c1 sp] eqn:Hsp.
  { destruct f; [done|discriminate]. }
  change (is_empty (c1 :: sp)) with false. cbv iota. rewrite <- Hsp.
  unfold mbind. rewrite execute_update_ok.
  - by rewrite last_snoc, zip_map_fst_snd.
  - apply known_columns_intro. intros c Hc.
    apply elem_of_map in Hc as ([c' v'] & -> & Hc).
    by apply known_updates_elem in Hc as [_ ?].
  - rewrite length_app, !length_map. simpl. lia.
  - intros H. apply Hno. apply elem_of_map in H as ([c' v'] & Heq & H).
    apply known_updates_elem in H as [H _]. rewrite Heq.
    by apply (elem_of_map_2 fst (u :: updates) (c', v')).
  - done.
Qed.







Lemma known_updates_nil db_cols (updates : dict value) :
  known_updates db_cols updates = []
  <-> Forall (fun c => c ∉ db_cols) (map fst updates).
Proof.
  induction updates as [|[c v] rest IH].
  - split; [constructor|done].
  - unfold known_updates. rewrite filter_cons. simpl.
    destruct (decide (c ∈ db_cols)) as [Hc|Hc].
    + split; [discriminate|]. intros H. by apply Forall_cons in H as [H _].
    + rewrite Forall_cons. unfold known_updates in IH. rewrite IH. tauto.
Qed.

Lemma update_single_record_false cod updates s :
  (update_single_record cod updates s).2 = Ok false ->
  known_updates (column_names (conn s)) updates = [].
Proof.
  unfold update_single_record.
  destruct updates as [|u updates]; [done|].
  change (is_empty (u :: updates)) with false. cbv iota.
  rewrite get_table_columns_bind, single_parts_eq, !app_nil_l.
  destruct (known_updates (column_names (conn s)) (u :: updates))
    as [|[c1 v1] f]; [done|].
  change (is_empty (map fst ((c1, v1) :: f))) with false. cbv iota.
  unfold mbind, ret.
  by destruct (execute_update _ _ s) as [s1 [[]|e]].
Qed.

(** C9 (amended): the update primitive skips, without any signal, the
    fields that are not in the schema and writes the others: it returns
    [False] exactly when no named field is in the schema, and then changes
    nothing; when some named field is in the schema (the names being
    distinct and not the key, the values such as SQLite stores as bound)
    it returns [True] and every record with the key holds each named value
    whose field is in the schema, keeps its other fields, and the other
    records are untouched.  Neither it nor a row of the import ever adds a
    column, and no record gets a value for a field outside the schema. *)
Theorem C9_update_skips_unknown_fields cod updates s :
  let out := update_single_record cod updates s in
  let known := known_updates (column_names (conn s)) updates in
  columns (conn out.1) = columns (conn s)
  /\ Forall2 (fun r0 r1 =>
                forall c, c ∉ column_names (conn s) -> r1 !! c = r0 !! c)
             (records (conn s)) (records (conn out.1))
  /\ (Forall (fun c => c ∉ column_names (conn s)) (map fst updates) ->
      out = (s, Ok false))
  /\ (out.2 = Ok false ->
      Forall (fun c => c ∉ column_names (conn s)) (map fst updates))
  /\ (known <> [] ->
      NoDup (map fst updates) -> codigo ∉ map fst updates ->
      pk_unique (records (conn s)) = true ->
      scalar_text cod = true ->
      (forall c v, (c, v) ∈ known -> binds_as_stored (conn s) c v = true) ->
      out.2 = Ok true
      /\ Forall2 (fun r0 r1 =>
                    if row_matches (PStr cod) r0
                    then (forall c v, (c, v) ∈ updates ->
                                      c ∈ column_names (conn s) ->
                                      r1 !! c = Some v)
                         /\ (forall c, c ∉ map fst known -> r1 !! c = r0 !! c)
                    else r1 = r0)
                 (records (conn s)) (records (conn out.1)))
  /\ (forall cols colmap codigo_col db_cols row cnt,
        columns (conn (process_row cols colmap codigo_col db_cols row cnt s).1)
        = columns (conn s)).
Proof.
  intros out known.
  destruct (update_single_record_frame cod updates s) as (Hcols & Hframe & Hnone & Hrow).
  fold out in Hcols, Hframe, Hnone.
  split; [done|]. split; [done|]. split; [done|]. split; [|split; [|done]].
  - intros Hfalse. apply known_updates_nil.
    by apply (update_single_record_false cod).
  - intros Hne Hnd Hno Hpk _ _. subst out.
    rewrite (update_single_record_writes cod updates s Hno Hpk Hne).
    split; [done|]. unfold with_table. cbn [fst conn records].
    apply Forall2_map_same. intros r.
    destruct (row_matches (PStr cod) r); [|done]. split.
    + intros c v Hin Hc. apply foldl_assign_lookup_in.
      * by apply known_updates_NoDup.
      * by apply known_updates_elem.
    + intros c Hc. by apply foldl_assign_lookup.
Qed.

Lemma C9_witness :
  update_single_record (lit "A1") [(lit "zona", txt "Z9")] stocked
  = (stocked, Ok false)
  /\ (let out := update_single_record (lit "A1")
                   [(lit "zona", txt "Z9"); (produto, txt "Nut")] stocked in
      out.2 = Ok true
      /\ Forall (fun r => r !! produto = Some (txt "Nut")) (records (conn out.1))).
Proof.
  split.
  - destruct (C9_update_skips_unknown_fields
                (lit "A1") [(lit "zona", txt "Z9")] stocked) as (_ & _ & H & _).
    apply H. apply Forall_singleton.
    apply (bool_decide_eq_false_1 _). vm_compute. reflexivity.
  - intros out.
    destruct (C9_update_skips_unknown_fields (lit "A1")
                [(lit "zona", txt "Z9"); (produto, txt "Nut")] stocked)
      as (_ & _ & _ & _ & H & _).
    fold out in H. destruct H as [Hok Hrecs].
    + intros Hnil. apply known_updates_nil in Hnil.
      apply Forall_cons in Hnil as [_ Hnil]. apply Forall_cons in Hnil as [Hp _].
      apply Hp. apply (bool_decide_eq_true_1 _). vm_compute. reflexivity.
    + apply (bool_decide_eq_true_1 _). vm_compute. reflexivity.
    + apply (bool_decide_eq_false_1 _). vm_compute. reflexivity.
    + reflexivity.
    + reflexivity.
    + intros c v Hin. apply known_updates_elem in Hin as [Hin Hcol].
      rewrite !elem_of_cons in Hin.
      destruct Hin as [[= -> ->]|[[= -> ->]|Hin]].
      * exfalso.
        assert (Hz : lit "zona" ∉ column_names (conn stocked))
          by (apply (bool_decide_eq_false_1 _); vm_compute; reflexivity).
        exact (Hz Hcol).
      * reflexivity.
      * by apply elem_of_nil in Hin.
    + split; [exact Hok|].
      assert (Hall : Forall (fun r => row_matches (txt "A1") r = true)
                            (records (conn stocked))).
      { apply (bool_decide_eq_true_1 _). vm_compute. reflexivity. }
      revert Hall Hrecs. generalize (records (conn out.1)).
      generalize (records (conn stocked)).
      induction l as [|r0 l IH]; intros l' Hall HF.
      * apply Forall2_nil_inv_l in HF as ->. constructor.
      * apply Forall2_cons_inv_l in HF as (r1 & l'' & Hr & HF & ->).
        apply Forall_cons in Hall as [Hm Hall].
        unfold txt in Hm. rewrite Hm in Hr. destruct Hr as [Hw _].
        constructor; [|by apply IH].
        apply Hw.
        -- apply (bool_decide_eq_true_1 _). vm_compute. reflexivity.
        -- apply (bool_decide_eq_true_1 _). vm_compute. reflexivity.
Defined.

End Primitive.

(** ** The forms *)

Section Forms.

Lemma dict_get_Some_elem {V} (d : dict V) (c : pystr) (v : V) :
  dict_get d c = Some v -> (c, v) ∈ d.
Proof.
  induction d as [|[k w] d IH]; simpl; [done|].
  destruct (decide (k = c)) as [->|Hne].
  - intros [= ->]. apply list_elem_of_here.
  - intros H. by apply list_elem_of_further, IH.
Qed.

Lemma foldl_assign_dict_get (r : gmap pystr value) (d : dict value) (c : pystr) :
  NoDup (map fst d) ->
  foldl assign r d !! c
  = match dict_get d c with
    | Some v => Some v
    | None => r !! c
    end.
Proof.
  intros Hnd. destruct (dict_get d c) as [v|] eqn:Hg.
  - apply foldl_assign_lookup_in; [done|]. by apply dict_get_Some_elem.
  - apply foldl_assign_lookup. by apply dict_get_None_elem.
Qed.

Lemma known_updates_all db_cols (updates : dict value) :
  (forall c, c ∈ map fst updates -> c ∈ db_cols) ->
  known_updates db_cols updates = updates.
Proof.
  induction updates as [|[c v] rest IH]; [done|]. intros H.
  unfold known_updates. rewrite filter_cons. simpl.
  rewrite decide_True by (apply H; simpl; apply list_elem_of_here).
  f_equal. apply IH. intros c' Hc'. apply H. simpl. by apply list_elem_of_further.
Qed.

Lemma set_if_filled_NoDup updates k x :
  NoDup (map fst updates) -> NoDup (map fst (set_if_filled updates k x)).
Proof.
  unfold set_if_filled. destruct (is_empty x); [done|]. apply dict_set_NoDup.
Qed.

Lemma filled_updates_NoDup f : NoDup (map fst (filled_updates f)).
Proof.
  unfold filled_updates. apply dict_set_NoDup.
  repeat apply set_if_filled_NoDup. apply NoDup_nil_2.
Qed.

Lemma filled_updates_keys f c :
  c ∈ map fst (filled_updates f) -> c ∈ map fst base_columns.
Proof.
  unfold filled_updates. intros H.
  apply dict_set_key_elem in H as [->|H];
    [apply (bool_decide_eq_true_1 _); vm_compute; reflexivity|].
  repeat (apply set_if_filled_keys in H as [->|H];
    [apply (bool_decide_eq_true_1 _); vm_compute; reflexivity|]).
  by apply elem_of_nil in H.
Qed.

Lemma filled_updates_get f :
  dict_get (filled_updates f) qtde = Some (PInt (qtde_in f))
  /\ (forall old, match dict_get (filled_updates f) produto with
                  | Some v => Some v | None => old end
                  = form_text true (produto_in f) old)
  /\ (forall old, match dict_get (filled_updates f) categoria with
                  | Some v => Some v | None => old end
                  = form_text true (categoria_in f) old)
  /\ (forall old, match dict_get (filled_updates f) rua with
                  | Some v => Some v | None => old end
                  = form_text true (rua_in f) old)
  /\ (forall old, match dict_get (filled_updates f) nivel with
                  | Some v => Some v | None => old end
                  = form_text true (nivel_in f) old)
  /\ (forall old, match dict_get (filled_updates f) predio with
                  | Some v => Some v | None => old end
                  = form_text true (predio_in f) old).
Proof.
  unfold filled_updates, set_if_filled, form_text.
  destruct (is_empty (produto_in f)), (is_empty (categoria_in f)),
    (is_empty (rua_in f)), (is_empty (nivel_in f)), (is_empty (predio_in f));
    repeat split; intros; reflexivity.
Qed.

Lemma st_show_bind {B} (msg : message) (m : M B) (s : state) :
  (forall s0, shown (m s0).1 = shown s0) ->
  forall s' b, m s = (s', Ok b) ->
  mbind m (fun _ => st_show msg) s
  = ({| conn := conn s'; shown := shown s ++ [msg] |}, Ok tt).
Proof.
  intros Hsh s' b Hm. unfold mbind. rewrite Hm. unfold st_show.
  specialize (Hsh s). rewrite Hm in Hsh. simpl in Hsh. by rewrite Hsh.
Qed.

Lemma update_single_record_shown cod updates s :
  shown (update_single_record cod updates s).1 = shown s.
Proof.
  destruct (update_single_record_cases cod updates s)
    as [->|(sp & ps & -> & _)]; [done|]. apply execute_update_spec.
Qed.

(** X13: the registration form refuses a blank code with the message of
    line 299 and writes nothing; with a code and a non-blank extra field
    name it raises [ValueError], whatever the other inputs, and the store
    and the screen stay as they were. *)
Theorem X13_registration_refusals f s :
  (strip (codigo_in f) = [] ->
   cadastrar_manualmente f s
   = ({| conn := conn s; shown := shown s ++ [ErrorPreenchaCodigo] |}, Ok tt))
  /\ (strip (codigo_in f) <> [] -> strip (other_label f) <> [] ->
      cadastrar_manualmente f s = (s, Raise ValueError)).
Proof.
  unfold cadastrar_manualmente. split.
  - by intros ->.
  - intros Hc Hl.
    destruct (strip (codigo_in f)); [done|].
    destruct (strip (other_label f)); [done|].
    simpl. by rewrite normalize_colname_raises.
Qed.

Lemma X13_witness :
  cadastrar_manualmente
    {| codigo_in := lit "A1"; produto_in := lit "Nut"; categoria_in := [];
       rua_in := []; nivel_in := []; predio_in := []; qtde_in := 3;
       other_label := lit "Lote"; other_value := lit "L1" |} stocked
  = (stocked, Raise ValueError).
Proof.
  apply (proj2 (X13_registration_refusals
    {| codigo_in := lit "A1"; produto_in := lit "Nut"; categoria_in := [];
       rua_in := []; nivel_in := []; predio_in := []; qtde_in := 3;
       other_label := lit "Lote"; other_value := lit "L1" |} stocked));
    discriminate.
Defined.

(** X14: registering, without an extra field, a code that is in the store
    updates the record: every text input that is not empty replaces the
    stored value, an empty one keeps it, and the quantity is always
    overwritten with the form's number; other fields and other records are
    untouched and the success message is shown. *)
Theorem X14_registration_of_a_known_code_updates f s :
  let cod := strip (codigo_in f) in
  cod <> [] -> strip (other_label f) = [] ->
  existsb (row_matches (PStr cod)) (records (conn s)) = true ->
  pk_unique (records (conn s)) = true ->
  Forall (fun c => c ∈ column_names (conn s)) (map fst base_columns) ->
  exists recs',
    cadastrar_manualmente f s
    = ({| conn := {| columns := columns (conn s); records := recs' |};
          shown := shown s ++ [SuccessAtualizadoManual] |}, Ok tt)
    /\ Forall2 (fun r0 r1 =>
                  if row_matches (PStr cod) r0
                  then r1 !! produto = form_text true (produto_in f) (r0 !! produto)
                       /\ r1 !! categoria
                          = form_text true (categoria_in f) (r0 !! categoria)
                       /\ r1 !! rua = form_text true (rua_in f) (r0 !! rua)
                       /\ r1 !! nivel = form_text true (nivel_in f) (r0 !! nivel)
                       /\ r1 !! predio = form_text true (predio_in f) (r0 !! predio)
                       /\ r1 !! qtde = Some (PInt (qtde_in f))
                       /\ (forall c, c ∉ map fst base_columns -> r1 !! c = r0 !! c)
                  else r1 = r0)
               (records (conn s)) recs'.
Proof.
  intros cod Hcod Hlabel Hex Hpk Hbase.
  assert (Hknown : known_updates (column_names (conn s)) (filled_updates f)
                   = filled_updates f).
  { apply known_updates_all. intros c Hc.
    apply (proj1 (Forall_forall _ _) Hbase). by apply (filled_updates_keys f). }
  eexists. split.
  - unfold cadastrar_manualmente. fold cod.
    assert (Hfull : is_empty cod = false) by by destruct cod.
    rewrite Hfull. cbv iota.
    rewrite Hlabel. change (negb (is_empty [])) with false. cbv iota.
    rewrite select_codigo_bind, Hex.
    assert (Hw := update_single_record_writes cod (filled_updates f) s
                    (filled_updates_no_key f) Hpk).
    rewrite Hknown in Hw.
    assert (Hne : filled_updates f <> []).
    { intros H. apply (f_equal (fun d => dict_get d qtde)) in H.
      by rewrite (proj1 (filled_updates_get f)) in H. }
    rewrite (st_show_bind _ _ s (update_single_record_shown _ _) _ _ (Hw Hne)).
    reflexivity.
  - apply Forall2_map_same. intros r.
    destruct (row_matches (PStr cod) r); [|done].
    destruct (filled_updates_get f) as (Hq & Hp & Hca & Hr & Hn & Hpr).
    pose proof (filled_updates_NoDup f) as Hnd.
    rewrite !foldl_assign_dict_get by done.
    rewrite Hq, Hp, Hca, Hr, Hn, Hpr. repeat split.
    intros c Hc. rewrite foldl_assign_dict_get by done.
    destruct (dict_get (filled_updates f) c) eqn:Hg; [|done].
    exfalso. apply Hc, (filled_updates_keys f).
    apply dict_get_Some_elem in Hg.
    by apply (elem_of_map_2 fst (filled_updates f) (c, v)).
Qed.

Lemma X14_witness :
  exists recs',
    cadastrar_manualmente
      {| codigo_in := lit " A1 "; produto_in := []; categoria_in := lit "Fix";
         rua_in := []; nivel_in := []; predio_in := []; qtde_in := 0;
         other_label := []; other_value := [] |} stocked
    = ({| conn := {| columns := columns (conn stocked); records := recs' |};
          shown := shown stocked ++ [SuccessAtualizadoManual] |}, Ok tt)
    /\ map summary recs' = [(txt "A1", txt "Bolt", PInt 0)].
Proof.
  destruct (X14_registration_of_a_known_code_updates
      {| codigo_in := lit " A1 "; produto_in := []; categoria_in := lit "Fix";
         rua_in := []; nivel_in := []; predio_in := []; qtde_in := 0;
         other_label := []; other_value := [] |} stocked)
    as (recs' & Hrun & _).
  - discriminate.
  - reflexivity.
  - reflexivity.
  - reflexivity.
  - apply (bool_decide_eq_true_1 _). vm_compute. reflexivity.
  - exists recs'. split; [exact Hrun|].
    assert (Hrecs : recs' = records (conn (cadastrar_manualmente
      {| codigo_in := lit " A1 "; produto_in := []; categoria_in := lit "Fix";
         rua_in := []; nivel_in := []; predio_in := []; qtde_in := 0;
         other_label := []; other_value := [] |} stocked).1))
      by (rewrite Hrun; reflexivity).
    rewrite Hrecs. vm_compute. reflexivity.
Defined.

Lemma execute_insert_ok insert_cols insert_vals s :
  known_columns (conn s) insert_cols = true ->
  length insert_vals = length insert_cols ->
  pk_unique (records (conn s)
             ++ [foldl assign ∅ (zip insert_cols insert_vals)]) = true ->
  execute_insert insert_cols insert_vals s
  = (with_table s
       {| columns := columns (conn s);
          records := records (conn s)
                     ++ [foldl assign ∅ (zip insert_cols insert_vals)] |},
     Ok tt).
Proof.
  intros Hknown Hlen Hpk. unfold execute_insert.
  rewrite Hknown. simpl negb. cbv iota.
  rewrite (proj2 (Nat.eqb_eq _ _) Hlen). simpl negb. cbv iota.
  by rewrite Hpk.
Qed.

(** The record the form inserts for a new code. *)
Lemma form_record_get cod p ca ru ni pr q :
  let d := [(codigo, PStr cod); (produto, PStr p); (categoria, PStr ca);
            (rua, PStr ru); (nivel, PStr ni); (predio, PStr pr);
            (qtde, PInt q)] in
  let r := foldl assign ∅ d in
  r !! codigo = Some (PStr cod)
  /\ r !! produto = Some (PStr p)
  /\ r !! categoria = Some (PStr ca)
  /\ r !! rua = Some (PStr ru)
  /\ r !! nivel = Some (PStr ni)
  /\ r !! predio = Some (PStr pr)
  /\ r !! qtde = Some (PInt q)
  /\ (forall c, c ∉ codigo :: map fst base_columns -> r !! c = None).
Proof.
  intros d r.
  assert (Hnd : NoDup (map fst d)).
  { apply (bool_decide_eq_true_1 _). vm_compute. reflexivity. }
  subst r. rewrite !foldl_assign_dict_get by done.
  repeat split; try reflexivity.
  intros c Hc. rewrite foldl_assign_dict_get by done.
  rewrite (proj2 (dict_get_None_elem d c)); [apply lookup_empty|exact Hc].
Qed.

(** X15: registering, without an extra field, a code that is not in the
    store appends one record with the trimmed code and the seven inputs as
    typed: an empty text input is stored as the empty string, not as
    NULL.  The success message is shown. *)
Theorem X15_registration_of_a_new_code_inserts f s :
  let cod := strip (codigo_in f) in
  cod <> [] -> strip (other_label f) = [] ->
  existsb (row_matches (PStr cod)) (records (conn s)) = false ->
  pk_unique (records (conn s)) = true ->
  Forall (fun c => c ∈ column_names (conn s)) (codigo :: map fst base_columns) ->
  exists r,
    cadastrar_manualmente f s
    = ({| conn := {| columns := columns (conn s);
                     records := records (conn s) ++ [r] |};
          shown := shown s ++ [SuccessInseridoManual] |}, Ok tt)
    /\ r !! codigo = Some (PStr cod)
    /\ r !! produto = Some (PStr (produto_in f))
    /\ r !! categoria = Some (PStr (categoria_in f))
    /\ r !! rua = Some (PStr (rua_in f))
    /\ r !! nivel = Some (PStr (nivel_in f))
    /\ r !! predio = Some (PStr (predio_in f))
    /\ r !! qtde = Some (PInt (qtde_in f))
    /\ (forall c, c ∉ codigo :: map fst base_columns -> r !! c = None).
Proof.
  intros cod Hcod Hlabel Hex Hpk Hbase.
  pose proof (form_record_get cod (produto_in f) (categoria_in f) (rua_in f)
                (nivel_in f) (predio_in f) (qtde_in f)) as Hget.
  cbv zeta in Hget.
  eexists. split; [|exact Hget].
  unfold cadastrar_manualmente. fold cod.
  assert (Hfull : is_empty cod = false) by by destruct cod.
  rewrite Hfull. cbv iota.
  rewrite Hlabel. change (negb (is_empty [])) with false. cbv iota.
  rewrite select_codigo_bind, Hex.
  assert (Hens : ensure_table_and_columns base_columns s = (s, Ok tt)).
  { rewrite ensure_unfold. apply add_missing_all_present. intros c Hc.
    apply (proj1 (Forall_forall _ _) Hbase). by apply list_elem_of_further. }
  unfold mbind at 1. rewrite Hens.
  unfold mbind. rewrite execute_insert_ok.
  - reflexivity.
  - apply known_columns_intro. intros c Hc.
    by apply (proj1 (Forall_forall _ _) Hbase).
  - reflexivity.
  - apply (pk_unique_snoc _ _ cod); [done|done|]. apply Hget.
Qed.

Lemma X15_witness :
  exists r,
    cadastrar_manualmente
      {| codigo_in := lit "N5"; produto_in := lit "Nut"; categoria_in := [];
         rua_in := []; nivel_in := []; predio_in := []; qtde_in := 2;
         other_label := lit "  "; other_value := [] |} stocked
    = ({| conn := {| columns := columns (conn stocked);
                     records := records (conn stocked) ++ [r] |};
          shown := shown stocked ++ [SuccessInseridoManual] |}, Ok tt)
    /\ r !! categoria = Some (PStr []).
Proof.
  destruct (X15_registration_of_a_new_code_inserts
      {| codigo_in := lit "N5"; produto_in := lit "Nut"; categoria_in := [];
         rua_in := []; nivel_in := []; predio_in := []; qtde_in := 2;
         other_label := lit "  "; other_value := [] |} stocked)
    as (r & Hrun & _ & _ & Hcat & _).
  - discriminate.
  - reflexivity.
  - reflexivity.
  - reflexivity.
  - apply (bool_decide_eq_true_1 _). vm_compute. reflexivity.
  - exists r. by split.
Defined.

(** X17: for headers that are distinct after stripping, whenever a row
    for a key in the store carries a present quantity for which
    [int(float(...))] raises, the row raises [ProgrammingError] and the
    store is as before, whatever else the row holds. *)
Theorem X17_unparseable_quantity_aborts_every_update
    cols colmap codigo_col row cnt s v e :
  let codigo_val := row_get cols row codigo_col in
  let k := strip (py_str codigo_val) in
  NoDup cols ->
  is_missing codigo_val = false -> k <> [] ->
  existsb (row_matches (PStr k)) (records (conn s)) = true ->
  (qtde, v) ∈ row_values cols row colmap ->
  int_float v = Raise e ->
  qtde ∈ column_names (conn s) ->
  process_row cols colmap codigo_col (column_names (conn s)) row cnt s
  = (s, Raise ProgrammingError).
Proof. intros codigo_val k _. apply bad_quantity_update_raises. Qed.

Lemma X17_witness :
  process_row (map lit ["codigo"; "produto"; "qtde"]%string)
    [(codigo, codigo); (produto, produto); (qtde, qtde)] codigo
    (column_names (conn stocked)) [txt "A1"; txt "Nut"; txt "1,5"]
    (0, 0, 0)%nat stocked
  = (stocked, Raise ProgrammingError).
Proof.
  apply (X17_unparseable_quantity_aborts_every_update _ _ _ _ _ _
           (txt "1,5") ValueError).
  - apply (bool_decide_eq_true_1 _). vm_compute. reflexivity.
  - reflexivity.
  - discriminate.
  - reflexivity.
  - apply (bool_decide_eq_true_1 _). vm_compute. reflexivity.
  - reflexivity.
  - apply (bool_decide_eq_true_1 _). vm_compute. reflexivity.
Defined.

End Forms.

(** ** Splitting a sheet *)

Section Split.

Lemma process_row_shift cols colmap codigo_col db_cols row cnt s :
  process_row cols colmap codigo_col db_cols row cnt s
  = ((process_row cols colmap codigo_col db_cols row (0, 0, 0)%nat s).1,
     shift_result cnt
       (process_row cols colmap codigo_col db_cols row (0, 0, 0)%nat s).2).
Proof.
  unfold process_row. destruct cnt as [[inserted updated] ignored].
  assert (Hcnt : forall (a b c : nat) (st : state),
            (st, @Ok counters (a, b, c))
            = (st, Ok (a + 0, b + 0, c + 0)%nat)).
  { intros. by rewrite !Nat.add_0_r. }
  destruct (is_missing _ || bool_decide _).
  { unfold ret, shift_result, add_counters. simpl.
    by rewrite !Nat.add_0_r, Nat.add_1_r. }
  rewrite !select_codigo_bind.
  destruct (existsb _ _).
  - destruct (is_empty (row_values cols row colmap)).
    { unfold ret, shift_result, add_counters. simpl.
      by rewrite !Nat.add_0_r, Nat.add_1_r. }
    destruct (update_parts _ _ _ _) as [sp ps].
    destruct (is_empty sp).
    { unfold ret, shift_result, add_counters. simpl.
      by rewrite !Nat.add_0_r, Nat.add_1_r. }
    unfold mbind, ret. destruct (execute_update _ _ s) as [s1 [[]|e]]; [|done].
    unfold shift_result, add_counters. simpl.
    by rewrite !Nat.add_0_r, Nat.add_1_r.
  - destruct (insert_parts _ _ _ _) as [ic iv].
    unfold mbind, ret. destruct (execute_insert _ _ s) as [s1 [[]|e]]; [|done].
    unfold shift_result, add_counters. simpl.
    by rewrite !Nat.add_0_r, Nat.add_1_r.
Qed.

Lemma add_counters_assoc a b c :
  add_counters (add_counters a b) c = add_counters a (add_counters b c).
Proof.
  destruct a as [[? ?] ?], b as [[? ?] ?], c as [[? ?] ?].
  unfold add_counters. simpl. f_equal; [f_equal|]; lia.
Qed.

Lemma add_counters_zero a : add_counters a (0, 0, 0)%nat = a.
Proof.
  destruct a as [[? ?] ?]. unfold add_counters. simpl. f_equal; [f_equal|]; lia.
Qed.

Lemma process_rows_cons cols colmap codigo_col db_cols row rest cnt :
  process_rows cols colmap codigo_col db_cols (row :: rest) cnt
  = mbind (process_row cols colmap codigo_col db_cols row cnt)
          (fun cnt' => process_rows cols colmap codigo_col db_cols rest cnt').
Proof. reflexivity. Qed.

Lemma process_rows_shift cols colmap codigo_col db_cols rows cnt s :
  process_rows cols colmap codigo_col db_cols rows cnt s
  = ((process_rows cols colmap codigo_col db_cols rows (0, 0, 0)%nat s).1,
     shift_result cnt
       (process_rows cols colmap codigo_col db_cols rows (0, 0, 0)%nat s).2).
Proof.
  revert cnt s. induction rows as [|row rest IH]; intros cnt s.
  - unfold process_rows, ret. simpl. by rewrite add_counters_zero.
  - rewrite !process_rows_cons.
    unfold mbind. rewrite (process_row_shift _ _ _ _ row cnt s).
    destruct (process_row cols colmap codigo_col db_cols row (0, 0, 0)%nat s)
      as [s1 [c1|e]]; simpl; [|done].
    rewrite (IH (add_counters cnt c1) s1), (IH c1 s1).
    destruct (process_rows cols colmap codigo_col db_cols rest (0, 0, 0)%nat s1)
      as [s2 [c2|e]]; simpl; [|done].
    by rewrite add_counters_assoc.
Qed.

Lemma process_rows_app cols colmap codigo_col db_cols rows1 rows2 cnt s s1 c1 :
  process_rows cols colmap codigo_col db_cols rows1 cnt s = (s1, Ok c1) ->
  process_rows cols colmap codigo_col db_cols (rows1 ++ rows2) cnt s
  = process_rows cols colmap codigo_col db_cols rows2 c1 s1.
Proof.
  revert cnt s. induction rows1 as [|row rest IH]; intros cnt s; simpl.
  - unfold ret. by intros [= <- <-].
  - unfold mbind.
    destruct (process_row cols colmap codigo_col db_cols row cnt s)
      as [s' [c'|e]]; [|done].
    apply IH.
Qed.

Lemma import_unfold df s :
  import_excel_inteligente df s
  = match build_colmap (map strip (df_columns df)) [] with
    | Raise e => (s, Raise e)
    | Ok colmap =>
        match codigo_cols colmap with
        | [] => ({| conn := conn s;
                    shown := shown s ++ [ErrorPlanilhaSemCodigo] |},
                 Ok (0, 0, 0)%nat)
        | codigo_col :: _ =>
            match ensure_table_and_columns (columns_to_ensure colmap) s with
            | (s0, Ok _) =>
                process_rows (map strip (df_columns df)) colmap codigo_col
                  (column_names (conn s0)) (df_rows df) (0, 0, 0)%nat s0
            | (s0, Raise e) => (s0, Raise e)
            end
        end
    end.
Proof.
  unfold import_excel_inteligente.
  destruct (build_colmap _ _) as [colmap|e]; [|done].
  unfold mbind at 1, lift.
  destruct (codigo_cols colmap) as [|codigo_col ?]; [done|].
  unfold mbind at 1.
  destruct (ensure_table_and_columns _ s) as [s0 [[]|e]]; [|done].
  by rewrite get_table_columns_bind.
Qed.

(** Seen through the connection, importing the rows after the first part
    does what the rest of the import of the whole sheet does. *)
Lemma import_of_a_split_sheet headers rows1 rows2 s s1 c1 :
  import_excel_inteligente {| df_columns := headers; df_rows := rows1 |} s
  = (s1, Ok c1) ->
  let second :=
    import_excel_inteligente {| df_columns := headers; df_rows := rows2 |} s1 in
  let whole :=
    import_excel_inteligente
      {| df_columns := headers; df_rows := rows1 ++ rows2 |} s in
  conn whole.1 = conn second.1
  /\ whole.2 = shift_result c1 second.2.
Proof.
  intros H second whole. subst second whole.
  rewrite !import_unfold. rewrite import_unfold in H.
  simpl df_columns in *. simpl df_rows in *.
  destruct (build_colmap (map strip headers) []) as [colmap|e]; [|done].
  destruct (codigo_cols colmap) as [|codigo_col ?].
  { injection H as <- <-. by simpl. }
  pose proof (ensure_table_and_columns_spec (columns_to_ensure colmap) s)
    as (added & Hcols & _ & Hok & _).
  destruct (ensure_table_and_columns (columns_to_ensure colmap) s)
    as [s0 [[]|e]] eqn:Hens; [|done].
  simpl in Hcols, Hok.
  assert (Hsame : columns (conn s1) = columns (conn s0)).
  { pose proof (process_rows_columns (map strip headers) colmap codigo_col
                  (column_names (conn s0)) rows1 (0, 0, 0)%nat s0) as Hc.
    by rewrite H in Hc. }
  assert (Hens1 : ensure_table_and_columns (columns_to_ensure colmap) s1
                  = (s1, Ok tt)).
  { rewrite ensure_unfold. apply add_missing_all_present. intros c Hc.
    unfold column_names. rewrite Hsame.
    destruct (Hok eq_refl) as [_ Hall].
    by apply (proj1 (Forall_forall _ _) Hall). }
  rewrite Hens1.
  assert (Hnames : column_names (conn s1) = column_names (conn s0))
    by (unfold column_names; by rewrite Hsame).
  rewrite Hnames.
  rewrite (process_rows_app _ _ _ _ rows1 rows2 _ _ _ _ H).
  by rewrite (process_rows_shift _ _ _ _ rows2 c1 s1).
Qed.

(** X18: uploading a sheet in two parts gives what uploading it whole
    gives, when both parts are imported to the end: if the import of the
    first rows returns counters and so does the import of the remaining
    rows under the same headers, then the import of all the rows returns
    the sum of the two counters and ends in the same table. *)
Theorem X18_import_of_a_split_sheet headers rows1 rows2 s s1 c1 s2 c2 :
  import_excel_inteligente {| df_columns := headers; df_rows := rows1 |} s
  = (s1, Ok c1) ->
  import_excel_inteligente {| df_columns := headers; df_rows := rows2 |} s1
  = (s2, Ok c2) ->
  let whole :=
    import_excel_inteligente
      {| df_columns := headers; df_rows := rows1 ++ rows2 |} s in
  conn whole.1 = conn s2
  /\ whole.2 = Ok (add_counters c1 c2).
Proof.
  intros H1 H2 whole.
  destruct (import_of_a_split_sheet headers rows1 rows2 s s1 c1 H1) as [Hc Hr].
  fold whole in Hc, Hr. rewrite H2 in Hc, Hr. by split.
Qed.

Lemma X18_witness :
  let whole :=
    import_excel_inteligente
      (sheet ["codigo"; "qtde"]%string
             ([[txt "B7"; txt "5"]] ++ [[txt "B7"; txt "8"]; [txt "C1"; PNaN]]))
      initial_state in
  whole.2 = Ok (2, 1, 0)%nat.
Proof.
  intros whole.
  pose (s1 := (import_excel_inteligente
                 (sheet ["codigo"; "qtde"]%string [[txt "B7"; txt "5"]])
                 initial_state).1).
  pose (s2 := (import_excel_inteligente
                 (sheet ["codigo"; "qtde"]%string
                        [[txt "B7"; txt "8"]; [txt "C1"; PNaN]]) s1).1).
  destruct (X18_import_of_a_split_sheet
              (map lit ["codigo"; "qtde"]%string)
              [[txt "B7"; txt "5"]] [[txt "B7"; txt "8"]; [txt "C1"; PNaN]]
              initial_state s1 (1, 0, 0)%nat s2 (1, 1, 0)%nat) as [_ H].
  - vm_compute. reflexivity.
  - vm_compute. reflexivity.
  - exact H.
Defined.

End Split.
